(** * binr: acquisition, content-addressed caching and version links

  A shallow embedding of [binr.go].  Go functions become Rocq functions
  of the same name.  The filesystem, the HTTP client, the clock and the
  process environment are explicit: every function that touches them
  takes the current [world] and returns the next one.  A Go panic is a
  separate outcome, so that deferred calls and nil dereferences can be
  followed through [Get]. *)

From Stdlib Require Import ZArith Ascii.
From stdpp Require Import base strings list sorting gmap fin_maps.


(** ** Strings *)

Module Str.

(** [strings.TrimPrefix] once the prefix is known to be there: drop as
    many characters as the prefix has. *)
Fixpoint drop (n : nat) (s : string) : string :=
  match n, s with
  | S n', String _ s' => drop n' s'
  | _, _ => s
  end.

(** [strings.HasPrefix]. *)
Definition HasPrefix (s pre : string) : bool := String.prefix pre s.

(** [strings.TrimPrefix]. *)
Definition TrimPrefix (s pre : string) : string :=
  if HasPrefix s pre then drop (String.length pre) s else s.

(** [strings.Split s sep] for a one-character separator. *)
Fixpoint split_go (sep : ascii) (cur : string) (s : string) : list string :=
  match s with
  | EmptyString => [String.rev cur]
  | String c s' =>
      if Ascii.eqb c sep then String.rev cur :: split_go sep EmptyString s'
      else split_go sep (String c cur) s'
  end.

Definition split (sep : ascii) (s : string) : list string :=
  split_go sep EmptyString s.

Definition is_space (c : ascii) : bool :=
  let n := nat_of_ascii c in
  (n =? 32)%nat || ((9 <=? n)%nat && (n <=? 13)%nat).

Fixpoint trim_left (s : string) : string :=
  match s with
  | String c s' => if is_space c then trim_left s' else s
  | EmptyString => EmptyString
  end.

(** [strings.TrimSpace], on the ASCII white space characters. *)
Definition TrimSpace (s : string) : string :=
  String.rev (trim_left (String.rev (trim_left s))).

Definition is_digit (c : ascii) : bool :=
  let n := nat_of_ascii c in (48 <=? n)%nat && (n <=? 57)%nat.

Definition is_alpha (c : ascii) : bool :=
  let n := nat_of_ascii c in
  ((65 <=? n)%nat && (n <=? 90)%nat) || ((97 <=? n)%nat && (n <=? 122)%nat).

Fixpoint all (p : ascii -> bool) (s : string) : bool :=
  match s with
  | EmptyString => true
  | String c s' => p c && all p s'
  end.

(** The string has no character [sep]. *)
Definition lacks (sep : ascii) (s : string) : bool :=
  all (fun c => negb (Ascii.eqb c sep)) s.

Definition nonempty (s : string) : bool :=
  match s with EmptyString => false | _ => true end.

(** The longest prefix whose characters satisfy [p], and the rest. *)
Fixpoint span (p : ascii -> bool) (s : string) : string * string :=
  match s with
  | String c s' =>
      if p c then let '(a, b) := span p s' in (String c a, b)
      else (EmptyString, s)
  | EmptyString => (EmptyString, EmptyString)
  end.

Fixpoint decimal_go (acc : Z) (s : string) : Z :=
  match s with
  | EmptyString => acc
  | String c s' =>
      decimal_go (10 * acc + (Z.of_nat (nat_of_ascii c) - 48)) s'
  end.

(** Value of a string of decimal digits. *)
Definition decimal (s : string) : Z := decimal_go 0 s.

End Str.

(** ** Semantic versions

  The package [github.com/Masterminds/semver] is outside the repository;
  this is the part of it that [binr.go] calls: [NewVersion] and
  [GreaterThan].  A [*semver.Version] that may be nil is an
  [option Version]. *)

Module semver.

Record Version := mkVersion {
  major : Z; minor : Z; patch : Z;
  pre : string; metadata : string
}.

Definition max_int64 : Z := 9223372036854775807.

(** [strconv.ParseInt(s, 10, 64)] on a string of digits. *)
Definition parse_digits (s : string) : option Z :=
  if Str.nonempty s && Str.all Str.is_digit s then
    let n := Str.decimal s in
    if (n <=? max_int64)%Z then Some n else None
  else None.

(** [strconv.ParseInt(s, 10, 64)] in general: an optional sign, then
    digits. *)
Definition ParseInt (s : string) : option Z :=
  match s with
  | String "-" s' =>
      if Str.nonempty s' && Str.all Str.is_digit s' then
        let n := Str.decimal s' in
        if (n <=? max_int64 + 1)%Z then Some (- n)%Z else None
      else None
  | String "+" s' => parse_digits s'
  | _ => parse_digits s
  end.

Definition ident_char (c : ascii) : bool :=
  Str.is_digit c || Str.is_alpha c || Ascii.eqb c "-".

(** The regular expression [[0-9A-Za-z\-]+(\.[0-9A-Za-z\-]+)*]. *)
Definition ident_list (s : string) : bool :=
  forallb (fun part => Str.nonempty part && Str.all ident_char part)
          (Str.split "." s).

(** An optional group [(\.[0-9]+)?]: the digits taken and the rest. *)
Definition dot_digits (s : string) : string * string :=
  match s with
  | String "." s' =>
      let '(ds, rest) := Str.span Str.is_digit s' in
      if Str.nonempty ds then (ds, rest) else (EmptyString, s)
  | _ => (EmptyString, s)
  end.

(** The tail of the expression: [(-pre)?(\+metadata)?$]. *)
Definition tail (s : string) : option (string * string) :=
  match s with
  | EmptyString => Some (EmptyString, EmptyString)
  | String "+" m => if ident_list m then Some (EmptyString, m) else None
  | String "-" s' =>
      let '(p, rest) := Str.span (fun c => negb (Ascii.eqb c "+")) s' in
      if ident_list p then
        match rest with
        | EmptyString => Some (p, EmptyString)
        | String _ m => if ident_list m then Some (p, m) else None
        end
      else None
  | _ => None
  end.

Definition segment (ds : string) : option Z :=
  match ds with
  | EmptyString => Some 0%Z
  | _ => parse_digits ds
  end.

(** [semver.NewVersion]: [None] is the returned error. *)
Definition NewVersion (v : string) : option Version :=
  let s := match v with String "v" s' => s' | _ => v end in
  let '(ma, s1) := Str.span Str.is_digit s in
  if Str.nonempty ma then
    let '(mi, s2) := dot_digits s1 in
    let '(pa, s3) := dot_digits s2 in
    match tail s3 with
    | Some (p, m) =>
        match parse_digits ma, segment mi, segment pa with
        | Some a, Some b, Some c => Some (mkVersion a b c p m)
        | _, _, _ => None
        end
    | None => None
    end
  else None.

Definition compareSegment (v o : Z) : Z :=
  if (v <? o)%Z then (-1)%Z else if (o <? v)%Z then 1%Z else 0%Z.

Definition comparePrePart (s o : string) : Z :=
  if String.eqb s o then 0%Z
  else if String.eqb s "" then (-1)%Z
  else if String.eqb o "" then 1%Z
  else
    match ParseInt o, ParseInt s with
    | None, None => if String.ltb o s then 1%Z else (-1)%Z
    | None, Some _ => (-1)%Z
    | Some _, None => 1%Z
    | Some oi, Some si => if (oi <? si)%Z then 1%Z else (-1)%Z
    end.

(** The loop of [comparePrerelease]: [n] iterations remain; a list
    that has run out supplies the empty string. *)
Fixpoint compareParts (n : nat) (sparts oparts : list string) : Z :=
  match n with
  | O => 0%Z
  | S n' =>
      let d := comparePrePart (hd "" sparts) (hd "" oparts) in
      if negb (d =? 0)%Z then d
      else compareParts n' (tl sparts) (tl oparts)
  end.

Definition comparePrerelease (v o : string) : Z :=
  let sparts := Str.split "." v in
  let oparts := Str.split "." o in
  compareParts (Nat.max (length sparts) (length oparts)) sparts oparts.

Definition Compare (v o : Version) : Z :=
  let d := compareSegment (major v) (major o) in
  if negb (d =? 0)%Z then d else
  let d := compareSegment (minor v) (minor o) in
  if negb (d =? 0)%Z then d else
  let d := compareSegment (patch v) (patch o) in
  if negb (d =? 0)%Z then d else
  if String.eqb (pre v) "" && String.eqb (pre o) "" then 0%Z
  else if String.eqb (pre v) "" then 1%Z
  else if String.eqb (pre o) "" then (-1)%Z
  else comparePrerelease (pre v) (pre o).

Definition GreaterThan (v o : Version) : bool := (0 <? Compare v o)%Z.

End semver.

(** ** Paths

  A Go path string is kept split at its separators: whether it starts
  with a slash, and the list of its components ([gopath]).  An absolute
  cleaned path, as [filepath.Abs] returns it, is the list of its
  components from the root ([path]); these are the keys of the
  filesystem. *)

Module filepath.

Record gopath := mkPath { rooted : bool; comps : list string }.

Abbreviation path := (list string).

Definition of_string (s : string) : gopath :=
  mkPath (Str.HasPrefix s "/") (Str.split "/" s).

(** The lexical processing of [filepath.Clean]: [stack] holds the
    components kept so far. *)
Fixpoint clean_go (root : bool) (stack : list string) (cs : list string)
  : list string :=
  match cs with
  | [] => stack
  | c :: cs' =>
      if String.eqb c "" || String.eqb c "." then clean_go root stack cs'
      else if String.eqb c ".." then
        match last stack with
        | Some top =>
            if String.eqb top ".." then clean_go root (stack ++ [c]) cs'
            else clean_go root (removelast stack) cs'
        | None =>
            if root then clean_go root stack cs'
            else clean_go root (stack ++ [c]) cs'
        end
      else clean_go root (stack ++ [c]) cs'
  end.

(** The components that cleaning keeps where it finds them, when
    there is no [".."]: all but the empty one and ["."]. *)
Definition kept (c : string) : bool :=
  negb (String.eqb c "" || String.eqb c ".").

(** [filepath.Clean].  The relative path with no component left is
    the path ".". *)
Definition Clean (p : gopath) : gopath :=
  mkPath (rooted p) (clean_go (rooted p) [] (comps p)).

Definition is_empty (p : gopath) : bool :=
  negb (rooted p) &&
  match comps p with [s] => String.eqb s "" | _ => false end.

(** [filepath.Join]: empty elements are ignored, the rest is joined
    with separators and cleaned. *)
Definition Join (elems : list gopath) : gopath :=
  let es := filter (fun e => negb (is_empty e)) elems in
  match es with
  | [] => mkPath false []
  | e :: _ => Clean (mkPath (rooted e) (flat_map comps es))
  end.

(** [filepath.Abs], the working directory being [cwd]. *)
Definition Abs (cwd : path) (p : gopath) : path :=
  if rooted p then comps (Clean p)
  else clean_go true cwd (comps p).

(** [filepath.Join] when the first element is an absolute cleaned
    path. *)
Definition JoinAbs (base : path) (elems : list gopath) : path :=
  clean_go true base
    (flat_map comps (filter (fun e => negb (is_empty e)) elems)).

(** [filepath.Dir] of an absolute cleaned path. *)
Definition Dir (p : path) : path := removelast p.

End filepath.

Notation "$ s" := (filepath.of_string s) (at level 1, s at level 0, format "$ s").

(** ** The operating system

  Package [os] on a filesystem that is a finite map from absolute paths
  to nodes.  A path names a node only if its parent is a directory of
  the map; a symbolic link is followed where it is the last component
  of a path (at most [max_links] times), and is not a directory when
  it stands in the middle of one. *)

Module os.

Import filepath.

Inductive node :=
| File (content : string)
| Directory
| Link (target : gopath).

Inductive errno := ENOENT | EEXIST | ENOTDIR | EISDIR | ENOTEMPTY | ELOOP | EINVAL.

#[global] Instance errno_eq_dec : EqDecision errno.
Proof. solve_decision. Defined.

Inductive result (A : Type) :=
| Ok (a : A)
| Err (e : errno).
Arguments Ok {A} a.
Arguments Err {A} e.

Abbreviation FS := (gmap (list string) node).

Definition max_links : nat := 40.

(** Whether [d] can hold entries. *)
Definition dir_at (fs : FS) (d : path) : result unit :=
  match d with
  | [] => Ok tt
  | _ =>
      match fs !! d with
      | Some Directory => Ok tt
      | Some _ => Err ENOTDIR
      | None => Err ENOENT
      end
  end.

(** A map is a tree when every node of it is in a directory of it. *)
Definition tree (fs : FS) : Prop :=
  forall p n, fs !! p = Some n -> dir_at fs (Dir p) = Ok tt.

(** [os.Lstat]: the node at [p] itself. *)
Definition Lstat (fs : FS) (p : path) : result node :=
  match p with
  | [] => Ok Directory
  | _ =>
      match dir_at fs (Dir p) with
      | Ok _ =>
          match fs !! p with
          | Some n => Ok n
          | None => Err ENOENT
          end
      | Err e => Err e
      end
  end.

(** Where a link at [p] with the given target leads. *)
Definition link_dest (p : path) (target : gopath) : path :=
  Abs (Dir p) target.

(** The node [p] leads to once links are followed, with its own
    path. *)
Fixpoint resolve (fuel : nat) (fs : FS) (p : path) : result (path * node) :=
  match Lstat fs p with
  | Ok (Link t) =>
      match fuel with
      | O => Err ELOOP
      | S fuel' => resolve fuel' fs (link_dest p t)
      end
  | Ok n => Ok (p, n)
  | Err e => Err e
  end.

(** [os.Stat]. *)
Definition Stat (fs : FS) (p : path) : result node :=
  match resolve max_links fs p with
  | Ok (_, n) => Ok n
  | Err e => Err e
  end.

(** [os.IsNotExist] of the error of a result. *)
Definition IsNotExist {A} (r : result A) : bool :=
  match r with Err ENOENT => true | _ => false end.

Definition is_ok {A} (r : result A) : bool :=
  match r with Ok _ => true | Err _ => false end.

(** Make a new entry at [p], which must not exist, in an existing
    directory. *)
Definition create (fs : FS) (p : path) (n : node) : result FS :=
  match Lstat fs p with
  | Ok _ => Err EEXIST
  | Err ENOENT =>
      match dir_at fs (Dir p) with
      | Ok _ => Ok (<[p := n]> fs)
      | Err e => Err e
      end
  | Err e => Err e
  end.

(** [os.Mkdir]. *)
Definition Mkdir (fs : FS) (p : path) : result FS := create fs p Directory.

(** [os.Symlink]. *)
Definition Symlink (fs : FS) (target : gopath) (p : path) : result FS :=
  create fs p (Link target).

(** The prefixes of a path, shortest first, the root left out. *)
Fixpoint prefixes (base p : path) : list path :=
  match p with
  | [] => []
  | c :: p' => (base ++ [c]) :: prefixes (base ++ [c]) p'
  end.

(** [os.MkdirAll]: every missing directory on the way to [p]. *)
Definition MkdirAll (fs : FS) (p : path) : result FS :=
  foldl (fun acc q =>
           match acc with
           | Ok fs' =>
               match Stat fs' q with
               | Ok Directory => Ok fs'
               | Ok _ => Err ENOTDIR
               | Err ENOENT => Mkdir fs' q
               | Err e => Err e
               end
           | Err e => Err e
           end) (Ok fs) (prefixes [] p).

(** The entries directly under [d], as the map lists them. *)
Definition entries (fs : FS) (d : path) : list (string * node) :=
  omap (fun '(p, n) =>
          match last p with
          | Some name => if decide (p = d ++ [name]) then Some (name, n) else None
          | None => None
          end) (map_to_list fs).

Definition name_le (a b : string * node) : Prop := String.le a.1 b.1.

#[global] Instance name_le_dec : RelDecision name_le.
Proof. intros a b. unfold name_le, String.le. apply _. Defined.

(** [os.ReadDir]: the entries of the directory, sorted by name. *)
Definition ReadDir (fs : FS) (p : path) : result (list (string * node)) :=
  match resolve max_links fs p with
  | Ok (d, Directory) => Ok (merge_sort name_le (entries fs d))
  | Ok _ => Err ENOTDIR
  | Err e => Err e
  end.

(** [DirEntry.IsDir]. *)
Definition IsDir (n : node) : bool :=
  match n with Directory => true | _ => false end.

(** [os.Remove]. *)
Definition Remove (fs : FS) (p : path) : result FS :=
  match Lstat fs p with
  | Ok Directory =>
      match p, entries fs p with
      | _ :: _, [] => Ok (delete p fs)
      | _, _ => Err ENOTEMPTY
      end
  | Ok _ => Ok (delete p fs)
  | Err e => Err e
  end.

(** [os.Rename] of a file or a link; the program renames nothing
    else, and a directory is refused here. *)
Definition Rename (fs : FS) (old new : path) : result FS :=
  match Lstat fs old with
  | Ok Directory => Err EINVAL
  | Ok n =>
      match Lstat fs new with
      | Ok Directory => Err EISDIR
      | Ok _ | Err ENOENT =>
          match dir_at fs (Dir new) with
          | Ok _ => Ok (<[new := n]> (delete old fs))
          | Err e => Err e
          end
      | Err e => Err e
      end
  | Err e => Err e
  end.

(** [os.OpenFile] with [O_WRONLY|O_CREATE|O_TRUNC] followed by writing
    [content]: the file a link leads to is the one written. *)
Fixpoint write_at (fuel : nat) (fs : FS) (p : path) (content : string)
  : result FS :=
  match Lstat fs p with
  | Ok (File _) => Ok (<[p := File content]> fs)
  | Ok Directory => Err EISDIR
  | Ok (Link t) =>
      match fuel with
      | O => Err ELOOP
      | S fuel' => write_at fuel' fs (link_dest p t) content
      end
  | Err ENOENT =>
      match dir_at fs (Dir p) with
      | Ok _ => Ok (<[p := File content]> fs)
      | Err e => Err e
      end
  | Err e => Err e
  end.

Definition WriteFile (fs : FS) (p : path) (content : string) : result FS :=
  write_at max_links fs p content.

(** [os.Open] followed by reading everything. *)
Definition ReadFile (fs : FS) (p : path) : result string :=
  match Stat fs p with
  | Ok (File c) => Ok c
  | Ok _ => Err EISDIR
  | Err e => Err e
  end.

End os.

(** ** The package

  [binr.go], function by function.  Log messages are left out.  The
  digest [sha256_hex] (package [crypto/sha256] followed by
  [hex.EncodeToString]) is kept abstract. *)

Module binr.

Import filepath os.

(** The errors the package makes, one constructor for each place that
    makes one; [ErrOs] is an error of package [os] passed on as it
    is, [ErrSource] one that the caller's [Source] returned. *)
Inductive error :=
| ErrGetNamespace | ErrGetCommand | ErrGetVersion | ErrGetSemver
| ErrGetSource | ErrGetUpdate
| ErrSetupCreate (e : errno) | ErrSetupAccess (e : errno)
| ErrPathNamespace | ErrPathCommand | ErrPathSemver
| ErrRequest (url : string)
| ErrChecksumFetch (url : string)
| ErrChecksumStatus (code : nat) (url : string)
| ErrChecksumRead (url : string)
| ErrDownloadExists (outPath : path)
| ErrDownloadHttp
| ErrDownloadStatus (code : nat) (url : string)
| ErrDownloadContentType (got want : string)
| ErrDownloadOpen (e : errno)
| ErrDownloadCopy
| ErrChecksumMismatch
| ErrCalculate (e : errno)
| ErrNewerSemver (versionStr : string)
| ErrNewerReadDir (e : errno)
| ErrNewerForm (name : string)
| ErrOs (op : string) (e : errno) (p : path)
| ErrSource (msg : string).

Inductive res (A : Type) :=
| OK (a : A)
| Fail (e : error).
Arguments OK {A} a.
Arguments Fail {A} e.

(** A call either returns or panics. *)
Inductive outcome (A : Type) :=
| Return (a : A)
| Panic.
Arguments Return {A} a.
Arguments Panic {A}.

Record response := {
  StatusCode : nat;
  ContentType : string;
  Body : string;      (* the bytes received *)
  BodyErr : bool      (* whether reading the body ended in an error *)
}.

Inductive reply :=
| BadRequest                 (* http.NewRequestWithContext fails *)
| Unreachable                (* http.DefaultClient.Do fails *)
| Reply (r : response).

(** [type Source func(version, os, arch string) (url, sum string, err error)] *)
Definition Source : Type :=
  string -> string -> string -> string * string * option error.

(** What a call reads from the process and the outside. *)
Record env := {
  XDG_CONFIG_HOME : string;       (* os.Getenv, empty when unset *)
  UserHomeDir : option string;    (* os.UserHomeDir, None its error *)
  Getwd : path;                   (* the working directory *)
  GOOS : string;
  GOARCH : string;
  http : string -> reply;         (* GET of a URL *)
  Now : string                    (* time.Now() in format 20060102150405.999 *)
}.

Inductive event :=
| Request (url : string)          (* a GET sent over the network *)
| Cleanup (tmpfile : path).       (* the callback [done] of [cache] called *)

Record world := { files : FS; events : list event }.

Definition put (w : world) (fs : FS) : world :=
  {| files := fs; events := events w |}.

Definition emit (w : world) (ev : event) : world :=
  {| files := files w; events := events w ++ [ev] |}.

(** [type config struct{ update bool }] and its functional options. *)
Record config := { update : bool }.

Definition option_ : Type := config -> config.

Definition newConfig (options : list option_) : config :=
  foldl (fun cfg o => o cfg) {| update := false |} options.

Definition WithUpdate : option_ := fun _ => {| update := true |}.

Section Digest.

Variable sha256_hex : string -> string.

Definition dotfilesPath (e : env) : gopath :=
  let xdg := XDG_CONFIG_HOME e in
  let home := default EmptyString (UserHomeDir e) in
  let dotfiles := Join [$home; $".config"] in
  if negb (bool_decide (is_Some (UserHomeDir e))) && String.eqb xdg ""
  then $"."
  else if negb (String.eqb xdg "") then $xdg
  else dotfiles.

Definition cachePath (e : env) : path :=
  Abs (Getwd e) (Join [dotfilesPath e; $"binr"; $".cache"]).

Definition setup (e : env) (w : world) : option error * world :=
  let path := cachePath e in
  let st := Stat (files w) path in
  if IsNotExist st then
    match MkdirAll (files w) path with
    | Err err => (Some (ErrSetupCreate err), w)
    | Ok fs => (None, put w fs)
    end
  else
    match st with
    | Err err => (Some (ErrSetupAccess err), w)
    | Ok _ => (None, w)
    end.

Definition Path (e : env) (namespace command version : string) : res path :=
  if String.eqb namespace "" then Fail ErrPathNamespace
  else if String.eqb command "" then Fail ErrPathCommand
  else if negb (String.eqb version "") then
    match semver.NewVersion version with
    | None => Fail ErrPathSemver
    | Some _ =>
        let command := command +:+ "-" +:+ version in
        OK (Abs (Getwd e) (Join [dotfilesPath e; $"binr"; $namespace; $command]))
    end
  else OK (Abs (Getwd e) (Join [dotfilesPath e; $"binr"; $namespace; $command])).

Definition got (w : world) (path : path) : bool :=
  is_ok (Stat (files w) path).

Definition getChecksum (e : env) (w : world) (url : string)
  : (string * option error) * world :=
  if String.eqb url "" then ((EmptyString, None), w)
  else
    match http e url with
    | BadRequest => ((EmptyString, Some (ErrRequest url)), w)
    | Unreachable =>
        ((EmptyString, Some (ErrChecksumFetch url)), emit w (Request url))
    | Reply r =>
        let w := emit w (Request url) in
        if negb (StatusCode r =? 200)%nat
        then ((EmptyString, Some (ErrChecksumStatus (StatusCode r) url)), w)
        else if BodyErr r
        then ((EmptyString, Some (ErrChecksumRead url)), w)
        else ((Str.TrimSpace (Body r), None), w)
    end.

Definition download (e : env) (w : world) (url : string) (outPath : path)
  (contentType : string) : option error * world :=
  if is_ok (Stat (files w) outPath) then (Some (ErrDownloadExists outPath), w)
  else
    match http e url with
    | BadRequest => (Some (ErrRequest url), w)
    | Unreachable => (Some ErrDownloadHttp, emit w (Request url))
    | Reply r =>
        let w := emit w (Request url) in
        if negb (StatusCode r =? 200)%nat
        then (Some (ErrDownloadStatus (StatusCode r) url), w)
        else if negb (String.eqb (ContentType r) contentType)
        then (Some (ErrDownloadContentType (ContentType r) contentType), w)
        else
          match WriteFile (files w) outPath (Body r) with
          | Err err => (Some (ErrDownloadOpen err), w)
          | Ok fs =>
              if BodyErr r then (Some ErrDownloadCopy, put w fs)
              else (None, put w fs)
          end
    end.

Definition cached (e : env) (w : world) (checksum : string) : bool :=
  if String.eqb checksum "" then false
  else
    let path := JoinAbs (cachePath e) [$checksum] in
    is_ok (Stat (files w) path).

Definition calculateChecksum (w : world) (filePath : path)
  : string * option error :=
  match ReadFile (files w) filePath with
  | Err err => (EmptyString, Some (ErrCalculate err))
  | Ok content => (sha256_hex content, None)
  end.

Definition verify (w : world) (path : path) (checksum : string)
  : option error :=
  let '(fileChecksum, err) := calculateChecksum w path in
  match err with
  | Some _ => err
  | None =>
      if negb (String.eqb fileChecksum checksum)
      then Some ErrChecksumMismatch
      else None
  end.

(** The closure [done] that [cache] builds captures only [tmpfile];
    calling it is [run_done]. *)
Definition run_done (w : world) (tmpfile : path) : world :=
  let w := emit w (Cleanup tmpfile) in
  if IsNotExist (Stat (files w) tmpfile) then w
  else
    match Remove (files w) tmpfile with
    | Err _ => w
    | Ok fs => put w fs
    end.

(** The three named results [(sum string, done func(), err error)]:
    [done] is [Some tmpfile] for the closure over [tmpfile] and [None]
    for nil. *)
Definition cache (e : env) (w : world) (url checksum : string)
  : (string * option path * option error) * world :=
  if cached e w checksum then ((EmptyString, None, None), w)
  else
    let tmpfile := JoinAbs (cachePath e) [$(Now e +:+ ".partial")] in
    let done := Some tmpfile in
    match download e w url tmpfile "application/octet-stream" with
    | (Some err, w) => ((EmptyString, done, Some err), w)
    | (None, w) =>
        let '(checksum, err) :=
          if String.eqb checksum "" then calculateChecksum w tmpfile
          else (checksum, verify w tmpfile checksum) in
        match err with
        | Some _ => ((EmptyString, done, err), w)
        | None =>
            let newpath := JoinAbs (cachePath e) [$checksum] in
            match Rename (files w) tmpfile newpath with
            | Err en => ((checksum, done, Some (ErrOs "rename" en tmpfile)), w)
            | Ok fs => ((checksum, done, None), put w fs)
            end
        end
    end.

(** The loop of [isNewer] over the directory entries; [highest] is
    the pointer of the same name, [None] while it is nil.  [inl] is
    the early return with the name of the entry that did not parse. *)
Fixpoint scan (command : string) (files : list (string * node))
  (highest : option semver.Version) : string + option semver.Version :=
  match files with
  | [] => inr highest
  | (name, n) :: files' =>
      if IsDir n then scan command files' highest
      else
        let pre := command +:+ "-" in
        if negb (Str.HasPrefix name pre) then scan command files' highest
        else
          let suffix := Str.TrimPrefix name pre in
          match semver.NewVersion suffix with
          | None => inl name
          | Some v =>
              match highest with
              | None => scan command files' (Some v)
              | Some h =>
                  if semver.GreaterThan v h
                  then scan command files' (Some v)
                  else scan command files' highest
              end
          end
  end.

(** An entry that stops the loop of [isNewer] for a command: not a
    directory, with the prefix of the command, and a rest that is no
    semver. *)
Definition unparsable (command : string) (entry : string * node) : Prop :=
  IsDir entry.2 = false /\
  Str.HasPrefix entry.1 (command +:+ "-") = true /\
  semver.NewVersion (Str.TrimPrefix entry.1 (command +:+ "-")) = None.

(** The directory [isNewer] reads is handed to the operating system
    as [filepath.Join] returns it, which resolves it against the
    working directory. *)
Definition isNewer (e : env) (w : world) (namespace command versionStr : string)
  : outcome (bool * option error) :=
  let dir := Abs (Getwd e) (Join [dotfilesPath e; $"binr"; $namespace]) in
  match semver.NewVersion versionStr with
  | None => Return (false, Some (ErrNewerSemver versionStr))
  | Some version =>
      match ReadDir (files w) dir with
      | Err err => Return (false, Some (ErrNewerReadDir err))
      | Ok files =>
          match scan command files None with
          | inl name => Return (false, Some (ErrNewerForm name))
          | inr None => Panic   (* highest.GreaterThan on the nil pointer *)
          | inr (Some highest) =>
              Return (negb (semver.GreaterThan highest version), None)
          end
      end
  end.

Definition link (e : env) (w : world) (namespace command version sum : string)
  : outcome (option error) * world :=
  match Path e namespace command version with
  | Fail err => (Return (Some err), w)
  | OK pathVersioned =>
      let target := Join [$".."; $".cache"; $sum] in
      match Mkdir (files w) (Dir pathVersioned) with
      | Err en => (Return (Some (ErrOs "mkdir" en (Dir pathVersioned))), w)
      | Ok fs =>
          let w := put w fs in
          match Symlink (files w) target pathVersioned with
          | Err en => (Return (Some (ErrOs "symlink" en pathVersioned)), w)
          | Ok fs =>
              let w := put w fs in
              match isNewer e w namespace command version with
              | Panic => (Panic, w)
              | Return (ok, err) =>
                  if negb ok || bool_decide (is_Some err)
                  then (Return err, w)
                  else
                    match Path e namespace command "" with
                    | Fail err => (Return (Some err), w)
                    | OK pathUnversioned =>
                        match Symlink (files w) target pathUnversioned with
                        | Err en =>
                            (Return (Some (ErrOs "symlink" en pathUnversioned)), w)
                        | Ok fs => (Return None, put w fs)
                        end
                    end
              end
          end
      end
  end.

(** The call [defer cleanup()] once the function body is over:
    calling the nil function panics; a panic of the body stays. *)
Definition deferred {A} (cleanup : option path) (r : outcome A) (w : world)
  : outcome A * world :=
  match cleanup with
  | None => (Panic, w)
  | Some tmpfile => (r, run_done w tmpfile)
  end.

(** The two named results [(path string, err error)]; the empty
    path is [None]. *)
Definition Get (e : env) (w : world) (namespace command version : string)
  (source : option Source) (options : list option_)
  : outcome (option path * option error) * world :=
  let cfg := newConfig options in
  if String.eqb namespace "" then (Return (None, Some ErrGetNamespace), w)
  else if String.eqb command "" then (Return (None, Some ErrGetCommand), w)
  else if String.eqb version "" then (Return (None, Some ErrGetVersion), w)
  else if negb (bool_decide (is_Some (semver.NewVersion version)))
  then (Return (None, Some ErrGetSemver), w)
  else
    match source with
    | None => (Return (None, Some ErrGetSource), w)
    | Some source =>
        if update cfg then (Return (None, Some ErrGetUpdate), w)
        else
          match setup e w with
          | (Some err, w) => (Return (None, Some err), w)
          | (None, w) =>
              match Path e namespace command version with
              | Fail err => (Return (None, Some err), w)
              | OK path =>
                  if got w path then (Return (Some path, None), w)
                  else
                    let '(sourceURL, sumURL, err) :=
                      source version (GOOS e) (GOARCH e) in
                    match err with
                    | Some _ => (Return (Some path, err), w)
                    | None =>
                        match getChecksum e w sumURL with
                        | ((_, Some err), w) => (Return (Some path, Some err), w)
                        | ((sum, None), w) =>
                            match cache e w sourceURL sum with
                            | ((_, _, Some err), w) =>
                                (Return (Some path, Some err), w)
                            | ((sum, cleanup, None), w) =>
                                let '(r, w) := link e w namespace command version sum in
                                let r :=
                                  match r with
                                  | Return err => Return (Some path, err)
                                  | Panic => Panic
                                  end in
                                deferred cleanup r w
                            end
                        end
                    end
              end
          end
    end.

(** The way of a call of [Get] up to its call of [cache]: the arguments
    pass the checks, the cache directory is there, nothing is yet at the
    versioned path [path], the source returns [sourceURL] and the URL of
    a checksum, and [getChecksum] returns [sum] and leaves the world
    [w2]. *)
Definition reaches_cache (e : env) (w : world) (namespace command version : string)
  (source : Source) (options : list option_)
  (path : path) (sourceURL sum : string) (w2 : world) : Prop :=
  namespace <> EmptyString /\ command <> EmptyString /\
  is_Some (semver.NewVersion version) /\
  update (newConfig options) = false /\
  exists w1 sumURL,
    setup e w = (None, w1) /\
    Path e namespace command version = OK path /\
    got w1 path = false /\
    source version (GOOS e) (GOARCH e) = (sourceURL, sumURL, None) /\
    getChecksum e w1 sumURL = ((sum, None), w2).

End Digest.

End binr.

(** ** A concrete setting

  One process without a home directory, one server with two releases
  of a binary, and the worlds that calls of [Get] lead to.  The digest
  used here tags the content; the general theorems hold for every
  digest function. *)

Module Demo.

Import filepath os binr.

Definition digest (content : string) : string := "sha256:" +:+ content.

Definition octet (body : string) : reply :=
  Reply {| StatusCode := 200; ContentType := "application/octet-stream";
           Body := body; BodyErr := false |}.

Definition text (body : string) : reply :=
  Reply {| StatusCode := 200; ContentType := "text/plain";
           Body := body; BodyErr := false |}.

Definition server (url : string) : reply :=
  if String.eqb url "http://dl/v1.0.0/testbin" then octet "binary 1.0.0"
  else if String.eqb url "http://dl/v1.2.0/testbin" then octet "binary 1.2.0"
  else if String.eqb url "http://dl/v2.0.0/testbin" then octet "binary 2.0.0"
  else if String.eqb url "http://dl/v1.0.0/good.sum" then text "sha256:binary 1.0.0"
  else if String.eqb url "http://dl/v1.0.0/bad.sum" then text "0000"
  else Unreachable.

(** No home directory, no [XDG_CONFIG_HOME]; working directory [/work]. *)
Definition homeless : env :=
  {| XDG_CONFIG_HOME := ""; UserHomeDir := None; Getwd := ["work"];
     GOOS := "linux"; GOARCH := "amd64"; http := server;
     Now := "20240101120000.000" |}.


(** The process of the table in [TestPath]: [HOME] and
    [XDG_CONFIG_HOME] as given, empty for unset. *)
Definition test_env (home xdg : string) : env :=
  {| XDG_CONFIG_HOME := xdg;
     UserHomeDir := if String.eqb home "" then None else Some home;
     Getwd := ["work"];
     GOOS := "linux"; GOARCH := "amd64"; http := server;
     Now := "20240101120000.000" |}.

(** Sources: the binary alone, with its checksum, with a wrong one. *)
Definition plain_source : Source :=
  fun version _ _ => ("http://dl/" +:+ version +:+ "/testbin", "", None).

Definition summed_source : Source :=
  fun version _ _ =>
    ("http://dl/" +:+ version +:+ "/testbin",
     "http://dl/" +:+ version +:+ "/good.sum", None).

Definition wrong_source : Source :=
  fun version _ _ =>
    ("http://dl/" +:+ version +:+ "/testbin",
     "http://dl/" +:+ version +:+ "/bad.sum", None).

(** An empty disk but for the working directory. *)
Definition fresh : world :=
  {| files := {[ ["work"] := Directory ]}; events := [] |}.

Definition get (w : world) (namespace command version : string) (s : Source) :=
  Get digest homeless w namespace command version (Some s) [].

(** After [Get("myapp", "testbin", "v1.0.0")]. *)
Definition after_v100 : world := (get fresh "myapp" "testbin" "v1.0.0" plain_source).2.

(** After [Get("myapp", "foo-1", "v2.0.0")]: the links [foo-1] and
    [foo-1-v2.0.0] of the command [foo-1]. *)
Definition after_foo1 : world := (get fresh "myapp" "foo-1" "v2.0.0" plain_source).2.

(** After [Get("myapp", "foo-bar", "v1.0.0")]: the links [foo-bar] and
    [foo-bar-v1.0.0] of the command [foo-bar]. *)
Definition after_foobar : world := (get fresh "myapp" "foo-bar" "v1.0.0" plain_source).2.

(** After [Get("other", "tool", "v1.0.0")]: the cache holds the
    content of release 1.0.0, the namespace [myapp] does not exist. *)
Definition after_other : world := (get fresh "other" "tool" "v1.0.0" plain_source).2.

Definition myapp : path := ["work"; "binr"; "myapp"].

(** The temporary file of a download at the time [Now homeless]. *)
Definition tmp : path :=
  ["work"; "binr"; ".cache"; "20240101120000.000.partial"].

(** The target of a link to the cache entry of a digest. *)
Definition entry (digest : string) : gopath :=
  mkPath false [".."; ".cache"; digest].

(** The directory of [myapp] with one entry in it that is no version
    of [foo]. *)
Definition corrupt : world :=
  {| files := <[myapp ++ ["foo-junk"] := File "x"]>
                (<[myapp := Directory]>
                   (<[["work"; "binr"; ".cache"] := Directory]>
                      (<[["work"; "binr"] := Directory]> (files fresh))));
     events := [] |}.

End Demo.

(** ** Notions of the further properties *)

Module Notion.

Import filepath os binr.

(** A name that is one component of a path and that cleaning keeps. *)
Definition plain (c : string) : Prop :=
  Str.lacks "/" c = true /\ c <> EmptyString /\ c <> "." /\ c <> "..".

(** An entry that the loop of [isNewer] reads for a command: not a
    directory, and with the prefix of the command. *)
Definition relevant (command : string) (entry : string * node) : bool :=
  negb (IsDir entry.2) && Str.HasPrefix entry.1 (command +:+ "-").

(** The version that the loop takes from an entry. *)
Definition version_of (command : string) (entry : string * node)
  : option semver.Version :=
  semver.NewVersion (Str.TrimPrefix entry.1 (command +:+ "-")).

(** A version without a prerelease part. *)
Definition release (v : semver.Version) : Prop := semver.pre v = EmptyString.

(** The order of the releases: by major, then minor, then patch. *)
Definition newer (v o : semver.Version) : Prop :=
  (semver.major o < semver.major v)%Z \/
  (semver.major o = semver.major v /\
   ((semver.minor o < semver.minor v)%Z \/
    (semver.minor o = semver.minor v /\
     (semver.patch o < semver.patch v)%Z))).

(** The digests of the bodies that the server sends are names of
    entries of the cache directory, and none of them is the name of the
    temporary file of a download. *)
Definition digests_name_entries (sha : string -> string) (e : env) : Prop :=
  forall url r, http e url = Reply r ->
    plain (sha (Body r)) /\ sha (Body r) <> Now e +:+ ".partial".

(** The options a caller can pass: the package has [WithUpdate] and no
    other, and the type [config] is not exported. *)
Definition package_options (options : list option_) : Prop :=
  Forall (fun o => o = WithUpdate) options.


End Notion.

(** * Properties *)

Import filepath os binr.

(** ** The models of the libraries on examples *)

Example NewVersion_examples :
  semver.NewVersion "v1.2.0" = Some (semver.mkVersion 1 2 0 "" "") /\
  semver.NewVersion "1" = Some (semver.mkVersion 1 0 0 "" "") /\
  semver.NewVersion "1.2.3-rc.1+build" = Some (semver.mkVersion 1 2 3 "rc.1" "build") /\
  semver.NewVersion "1-v2.0.0" = Some (semver.mkVersion 1 0 0 "v2.0.0" "") /\
  semver.NewVersion "" = None /\
  semver.NewVersion "foo" = None /\
  semver.NewVersion "bar-v1.0.0" = None /\
  semver.NewVersion "1.2.3.4" = None /\
  semver.NewVersion "v1.0.0/x" = None.
Proof. repeat split; reflexivity. Qed.

Example GreaterThan_examples :
  semver.GreaterThan (semver.mkVersion 1 2 0 "" "") (semver.mkVersion 1 0 0 "" "") = true /\
  semver.GreaterThan (semver.mkVersion 1 0 0 "" "") (semver.mkVersion 1 2 0 "" "") = false /\
  semver.GreaterThan (semver.mkVersion 1 0 0 "" "") (semver.mkVersion 1 0 0 "" "") = false /\
  semver.GreaterThan (semver.mkVersion 1 0 0 "" "") (semver.mkVersion 1 0 0 "rc.1" "") = true /\
  semver.GreaterThan (semver.mkVersion 1 0 0 "rc.10" "") (semver.mkVersion 1 0 0 "rc.9" "") = true.
Proof. repeat split; reflexivity. Qed.

Example Join_examples :
  Join [$"."; $"binr"; $"myapp"; $"mybin"] = mkPath false ["binr"; "myapp"; "mybin"] /\
  Join [$".."; $".cache"; $"abc"] = mkPath false [".."; ".cache"; "abc"] /\
  Join [$".."; $".cache"; $""] = mkPath false [".."; ".cache"] /\
  Join [$"/users/alice"; $".config"] = mkPath true ["users"; "alice"; ".config"] /\
  Join [$"a"; $"x/../b"; $"../../.."] = mkPath false [".."].
Proof. repeat split; reflexivity. Qed.

(** The table of the repository's test [TestPath], with the working
    directory [/work]. *)
Example TestPath_table :
  Path (Demo.test_env "" "") "myapp" "mybin" ""
    = OK ["work"; "binr"; "myapp"; "mybin"] /\
  Path (Demo.test_env "/users/alice" "") "myapp" "mybin" ""
    = OK ["users"; "alice"; ".config"; "binr"; "myapp"; "mybin"] /\
  Path (Demo.test_env "" "/users/alice/.xdg_config") "myapp" "mybin" ""
    = OK ["users"; "alice"; ".xdg_config"; "binr"; "myapp"; "mybin"] /\
  Path (Demo.test_env "/users/alice" "/users/alice/.xdg_config") "myapp" "mybin" ""
    = OK ["users"; "alice"; ".xdg_config"; "binr"; "myapp"; "mybin"] /\
  Path (Demo.test_env "/users/alice" "") "myapp" "mybin" "v1.0.0"
    = OK ["users"; "alice"; ".config"; "binr"; "myapp"; "mybin-v1.0.0"] /\
  Path (Demo.test_env "/users/alice" "") "myapp" "mybin" "foo"
    = Fail ErrPathSemver.
Proof. repeat split; reflexivity. Qed.

(** The repository's test [TestGet]: one call of [Get] on an empty
    disk, with a source that has no checksum. *)
Example TestGet_run :
  let r := Demo.get Demo.fresh "myapp" "testbin" "v1.0.0" Demo.plain_source in
  r.1 = Return (Some ["work"; "binr"; "myapp"; "testbin-v1.0.0"], None) /\
  Stat (files r.2) ["work"; "binr"; "myapp"; "testbin-v1.0.0"]
    = Ok (File "binary 1.0.0") /\
  Stat (files r.2) ["work"; "binr"; "myapp"; "testbin"]
    = Ok (File "binary 1.0.0") /\
  events r.2 = [Request "http://dl/v1.0.0/testbin"; Cleanup Demo.tmp] /\
  Lstat (files r.2) Demo.tmp = Err ENOENT.
Proof. vm_compute. repeat split; reflexivity. Qed.

(** ** Calls on the concrete setting *)

Import Demo.

(** C1.  [Get] with a source whose checksum does not match what was
    downloaded: [cache] built its cleanup callback and returned it with
    the error, and [Get] returned without calling it.  No [Cleanup]
    event took place and the partial file is still in the cache
    directory. *)
Theorem Get_mismatch_returns_without_cleanup :
  let r := get fresh "myapp" "testbin" "v1.0.0" wrong_source in
  cache digest homeless
    {| files := <[["work"; "binr"; ".cache"] := Directory]>
                  (<[["work"; "binr"] := Directory]> (files fresh));
       events := [Request "http://dl/v1.0.0/bad.sum"] |}
    "http://dl/v1.0.0/testbin" "0000"
    = ((EmptyString, Some tmp, Some ErrChecksumMismatch), r.2) /\
  r.1 = Return (Some ["work"; "binr"; "myapp"; "testbin-v1.0.0"],
                Some ErrChecksumMismatch) /\
  events r.2 = [Request "http://dl/v1.0.0/bad.sum";
                Request "http://dl/v1.0.0/testbin"] /\
  Lstat (files r.2) tmp = Ok (File "binary 1.0.0").
Proof. vm_compute. repeat split; reflexivity. Qed.

(** C5.  Two releases are asked for one after the other, on an empty
    disk.  Whichever comes first is installed; the second [Get] fails
    when [link] makes the directory of the namespace, which is there
    now.  The second release gets no versioned link, and the
    unversioned link stays at the content of the first: at release
    1.0.0 when release 1.2.0 came second. *)
Theorem Get_second_version_fails :
  let old_first := get fresh "myapp" "testbin" "v1.0.0" plain_source in
  let new_second := get old_first.2 "myapp" "testbin" "v1.2.0" plain_source in
  let new_first := get fresh "myapp" "testbin" "v1.2.0" plain_source in
  let old_second := get new_first.2 "myapp" "testbin" "v1.0.0" plain_source in
  (old_first.1 = Return (Some (myapp ++ ["testbin-v1.0.0"]), None) /\
   new_second.1 = Return (Some (myapp ++ ["testbin-v1.2.0"]),
                          Some (ErrOs "mkdir" EEXIST myapp)) /\
   files new_second.2 !! (myapp ++ ["testbin-v1.2.0"]) = None /\
   files new_second.2 !! (myapp ++ ["testbin"])
     = Some (Link (entry (digest "binary 1.0.0")))) /\
  (new_first.1 = Return (Some (myapp ++ ["testbin-v1.2.0"]), None) /\
   old_second.1 = Return (Some (myapp ++ ["testbin-v1.0.0"]),
                          Some (ErrOs "mkdir" EEXIST myapp)) /\
   files old_second.2 !! (myapp ++ ["testbin-v1.0.0"]) = None /\
   files old_second.2 !! (myapp ++ ["testbin"])
     = Some (Link (entry (digest "binary 1.2.0")))).
Proof. vm_compute. repeat split; reflexivity. Qed.

(** C6.  The directory of the namespace holds the file [foo-junk].
    [isNewer] names it, but [link] never gets that far: it fails when
    it makes the directory, with an error that names the directory. *)
Theorem link_corrupt_entry_fails_at_mkdir :
  ReadDir (files corrupt) myapp = Ok [("foo-junk", File "x")] /\
  isNewer homeless corrupt "myapp" "foo" "v1.0.0"
    = Return (false, Some (ErrNewerForm "foo-junk")) /\
  link homeless corrupt "myapp" "foo" "v1.0.0" "d"
    = (Return (Some (ErrOs "mkdir" EEXIST myapp)), corrupt) /\
  (get corrupt "myapp" "foo" "v1.0.0" plain_source).1
    = Return (Some (myapp ++ ["foo-v1.0.0"]),
              Some (ErrOs "mkdir" EEXIST myapp)).
Proof. vm_compute. repeat split; reflexivity. Qed.

(** C10.  The command ["x/../foo"]: its versioned link is
    [myapp/foo-v1.0.0], which has not the prefix ["x/../foo-"] that
    [isNewer] looks for.  No entry matches, and [link] and [Get]
    panic on the nil pointer. *)
Theorem link_reaches_nil_dereference :
  Path homeless "myapp" "x/../foo" "v1.0.0" = OK (myapp ++ ["foo-v1.0.0"]) /\
  (link homeless after_other "myapp" "x/../foo" "v1.0.0" "d").1 = Panic /\
  ReadDir (files (link homeless after_other "myapp" "x/../foo" "v1.0.0" "d").2) myapp
    = Ok [("foo-v1.0.0", Link (entry "d"))] /\
  (get fresh "myapp" "x/../foo" "v1.0.0" plain_source).1 = Panic.
Proof. vm_compute. repeat split; reflexivity. Qed.


(** C9, as stated, fails: the namespace holds the two links of the
    command [foo-1], installed by [Get]; both names start with
    ["foo-"], and [isNewer] for the command [foo] returns without an
    error, having read them as the versions 1 and 1-v2.0.0 of [foo]. *)
Lemma isNewer_accepts_links_of_other_command :
  (get fresh "myapp" "foo-1" "v2.0.0" plain_source).1
    = Return (Some (myapp ++ ["foo-1-v2.0.0"]), None) /\
  ReadDir (files after_foo1) myapp
    = Ok [("foo-1", Link (entry (digest "binary 2.0.0")));
          ("foo-1-v2.0.0", Link (entry (digest "binary 2.0.0")))] /\
  isNewer homeless after_foo1 "myapp" "foo" "v1.0.0" = Return (true, None).
Proof. vm_compute. repeat split; reflexivity. Qed.

(** ** The filesystem *)

Lemma Dir_neq (p : path) : p <> [] -> Dir p <> p.
Proof.
  intros Hp Heq. unfold Dir in Heq.
  destruct (exists_last Hp) as (q & c & ->).
  rewrite removelast_last in Heq.
  apply (f_equal length) in Heq. rewrite length_app in Heq. simpl in Heq. lia.
Qed.

Lemma create_Ok (fs fs' : FS) (p : path) (n : node) :
  create fs p n = Ok fs' ->
  fs' = <[p := n]> fs /\ fs !! p = None /\ p <> [] /\ dir_at fs (Dir p) = Ok tt.
Proof.
  unfold create, Lstat. destruct p as [|c p]; [discriminate|].
  destruct (dir_at fs (Dir (c :: p))) as [[]|en] eqn:Hd.
  - destruct (fs !! (c :: p)) eqn:Hl; [discriminate|].
    intros [= <-]. done.
  - destruct en; discriminate.
Qed.

Lemma create_exists (fs : FS) (p : path) (n0 n : node) :
  Lstat fs p = Ok n0 -> create fs p n = Err EEXIST.
Proof. unfold create. by intros ->. Qed.

Lemma Lstat_Ok (fs : FS) (p : path) (n : node) :
  Lstat fs p = Ok n -> p = [] \/ fs !! p = Some n.
Proof.
  unfold Lstat. destruct p as [|c p]; [by left|].
  destruct (dir_at fs (Dir (c :: p))); [|discriminate].
  destruct (fs !! (c :: p)); [|discriminate]. intros [= <-]. by right.
Qed.

Lemma dir_at_insert_fresh (fs : FS) (q d : path) (x : node) :
  fs !! q = None -> dir_at fs d = Ok tt -> dir_at (<[q := x]> fs) d = Ok tt.
Proof.
  intros Hq. unfold dir_at. destruct d as [|c d]; [done|].
  destruct (fs !! (c :: d)) as [[]|] eqn:Hl; try discriminate.
  intros _. rewrite lookup_insert_ne; [by rewrite Hl|]. congruence.
Qed.

(** What is on the disk stays when a new entry is made elsewhere. *)
Lemma Lstat_insert_fresh (fs : FS) (q p : path) (x n : node) :
  fs !! q = None -> Lstat fs p = Ok n -> Lstat (<[q := x]> fs) p = Ok n.
Proof.
  intros Hq. unfold Lstat. destruct p as [|c p]; [done|].
  destruct (dir_at fs (Dir (c :: p))) as [[]|] eqn:Hd; [|discriminate].
  rewrite (dir_at_insert_fresh _ _ _ _ Hq Hd).
  destruct (fs !! (c :: p)) eqn:Hl; [|discriminate].
  intros [= <-]. rewrite lookup_insert_ne; [by rewrite Hl|]. congruence.
Qed.

Lemma create_keeps (fs fs' : FS) (q p : path) (x n : node) :
  create fs q x = Ok fs' -> Lstat fs p = Ok n -> Lstat fs' p = Ok n.
Proof.
  intros (-> & Hq & _ & _)%create_Ok. by apply Lstat_insert_fresh.
Qed.

(** ** [cache] *)

(** C2.  When the checksum is not empty and its entry is in the cache
    directory, [cache] returns at once with the world untouched, hence
    without a request, and with no error; but what it returns are the
    zero values of its named results: the empty string, not the
    checksum, and the nil function, not a callback that can be
    called. *)
Theorem cache_hit_returns_zero_values (sha : string -> string) (e : env)
  (w : world) (url checksum : string) (n : node) :
  checksum <> EmptyString ->
  Stat (files w) (JoinAbs (cachePath e) [$checksum]) = Ok n ->
  cache sha e w url checksum = ((EmptyString, None, None), w).
Proof.
  intros Hne Hst. unfold cache, cached.
  apply String.eqb_neq in Hne as ->. by rewrite Hst.
Qed.

Lemma cache_hit_returns_zero_values_witness :
  Stat (files after_other) (JoinAbs (cachePath homeless) [$(digest "binary 1.0.0")])
    = Ok (File "binary 1.0.0") /\
  cache digest homeless after_other "http://dl/v1.0.0/testbin" (digest "binary 1.0.0")
    = ((EmptyString, None, None), after_other).
Proof.
  assert (Stat (files after_other)
            (JoinAbs (cachePath homeless) [$(digest "binary 1.0.0")])
          = Ok (File "binary 1.0.0")) as Hst by (vm_compute; reflexivity).
  split; [exact Hst|].
  apply (cache_hit_returns_zero_values digest homeless after_other _
           (digest "binary 1.0.0") (File "binary 1.0.0")); [discriminate|exact Hst].
Defined.

(** [Get] on a cache hit: the link is made to the empty digest, that
    is to the cache directory itself, and the deferred call of the nil
    cleanup panics. *)
Lemma Get_cache_hit_panics :
  let r := get after_other "myapp" "testbin" "v1.0.0" summed_source in
  r.1 = Panic /\
  files r.2 !! (myapp ++ ["testbin-v1.0.0"])
    = Some (Link (mkPath false [".."; ".cache"])) /\
  events r.2 = events after_other ++ [Request "http://dl/v1.0.0/good.sum"].
Proof. vm_compute. repeat split; reflexivity. Qed.

(** ** [link] *)

(** C3.  When anything is already at the place of the directory of the
    versioned link, [link] fails at [os.Mkdir] with "file exists" and
    changes nothing: the error is not ignored. *)
Theorem link_existing_directory_fails (e : env) (w : world)
  (namespace command version sum : string) (pathVersioned : path) (n : node) :
  Path e namespace command version = OK pathVersioned ->
  Lstat (files w) (Dir pathVersioned) = Ok n ->
  link e w namespace command version sum
    = (Return (Some (ErrOs "mkdir" EEXIST (Dir pathVersioned))), w).
Proof.
  intros HP HL. unfold link. rewrite HP. unfold Mkdir.
  by rewrite (create_exists _ _ _ _ HL).
Qed.

Lemma link_existing_directory_fails_witness :
  Path homeless "myapp" "testbin" "v1.2.0" = OK (myapp ++ ["testbin-v1.2.0"]) /\
  Lstat (files after_v100) myapp = Ok Directory /\
  link homeless after_v100 "myapp" "testbin" "v1.2.0" (digest "binary 1.2.0")
    = (Return (Some (ErrOs "mkdir" EEXIST myapp)), after_v100).
Proof.
  split; [reflexivity|]. split; [vm_compute; reflexivity|].
  apply (link_existing_directory_fails homeless after_v100 "myapp" "testbin"
           "v1.2.0" (digest "binary 1.2.0") (myapp ++ ["testbin-v1.2.0"]) Directory).
  - reflexivity.
  - vm_compute; reflexivity.
Defined.

(** C4.  When anything is already at the unversioned path, [link] never
    puts something else there: whatever [link] returns, the old entry
    is still in place afterwards, and [link] returns without an error
    only where [isNewer] has found the version not to be the newest.
    Where the version is the newest, [link] fails. *)
Theorem link_never_repoints_latest (e : env) (w w' : world)
  (namespace command version sum : string) (pathUnversioned : path) (n : node)
  (r : outcome (option error)) :
  Path e namespace command EmptyString = OK pathUnversioned ->
  Lstat (files w) pathUnversioned = Ok n ->
  link e w namespace command version sum = (r, w') ->
  Lstat (files w') pathUnversioned = Ok n /\
  (r = Return None ->
   isNewer e w' namespace command version = Return (false, None)).
Proof.
  intros HP HL. unfold link. rewrite HP.
  destruct (Path e namespace command version) as [pv|err];
    [|intros [= <- <-]; split; [done|discriminate]].
  destruct (Mkdir (files w) (Dir pv)) as [fs1|en] eqn:H1;
    [|intros [= <- <-]; split; [done|discriminate]].
  cbn [files put].
  destruct (Symlink fs1 _ pv) as [fs2|en] eqn:H2;
    [|intros [= <- <-]; split; [|discriminate]; cbn;
      by eapply create_keeps].
  assert (Lstat fs2 pathUnversioned = Ok n) as HL2.
  { eapply create_keeps; [exact H2|]. by eapply create_keeps. }
  destruct (isNewer e _ namespace command version) as [[ok err]|] eqn:HN;
    [|intros [= <- <-]; split; [done|discriminate]].
  destruct ok; cbn [negb orb].
  - destruct err as [err|]; cbn.
    + intros [= <- <-]; split; [done|discriminate].
    + unfold Symlink. rewrite (create_exists _ _ _ _ HL2).
      intros [= <- <-]; split; [done|discriminate].
  - intros [= <- <-]. split; [done|]. intros [= ->]. exact HN.
Qed.

Lemma link_never_repoints_latest_witness :
  Path homeless "myapp" "testbin" EmptyString = OK (myapp ++ ["testbin"]) /\
  Lstat (files after_v100) (myapp ++ ["testbin"])
    = Ok (Link (entry (digest "binary 1.0.0"))) /\
  link homeless after_v100 "myapp" "testbin" "v1.2.0" (digest "binary 1.2.0")
    = (Return (Some (ErrOs "mkdir" EEXIST myapp)), after_v100) /\
  Lstat (files after_v100) (myapp ++ ["testbin"])
    = Ok (Link (entry (digest "binary 1.0.0"))).
Proof.
  assert (Path homeless "myapp" "testbin" EmptyString = OK (myapp ++ ["testbin"]))
    as HP by reflexivity.
  assert (Lstat (files after_v100) (myapp ++ ["testbin"])
          = Ok (Link (entry (digest "binary 1.0.0")))) as HL
    by (vm_compute; reflexivity).
  assert (link homeless after_v100 "myapp" "testbin" "v1.2.0" (digest "binary 1.2.0")
          = (Return (Some (ErrOs "mkdir" EEXIST myapp)), after_v100)) as HK
    by (vm_compute; reflexivity).
  split; [exact HP|]. split; [exact HL|]. split; [exact HK|].
  exact (proj1 (link_never_repoints_latest _ _ _ _ _ _ _ _ _ _ HP HL HK)).
Defined.

(** Past [os.Mkdir] the same holds: [os.Symlink] does not replace what
    is there. *)
Lemma Symlink_existing_fails (fs : FS) (target : gopath) (p : path) (n : node) :
  Lstat fs p = Ok n -> Symlink fs target p = Err EEXIST.
Proof. apply create_exists. Qed.

(** ** Writing and reading a file *)

(** Writing a file keeps the links and the directories in place. *)
Lemma Lstat_insert_file (fs : FS) (q p : path) (c : string) (n : node) :
  (fs !! q = None \/ exists c0, fs !! q = Some (File c0)) ->
  (forall c0, n <> File c0) ->
  Lstat fs p = Ok n -> Lstat (<[q := File c]> fs) p = Ok n.
Proof.
  intros Hq Hn. unfold Lstat. destruct p as [|x p]; [done|].
  unfold dir_at.
  assert (forall d, fs !! d = Some Directory ->
                    <[q := File c]> fs !! d = Some Directory) as Hdir.
  { intros d Hd. rewrite lookup_insert_ne; [done|].
    intros ->. destruct Hq as [Hq|[c0 Hq]]; congruence. }
  destruct (Dir (x :: p)) as [|y d] eqn:HD.
  - destruct (fs !! (x :: p)) eqn:Hl; [|discriminate].
    intros [= <-]. rewrite lookup_insert_ne; [by rewrite Hl|].
    intros ->. destruct Hq as [Hq|[c0 Hq]]; [congruence|].
    rewrite Hq in Hl. injection Hl as <-. by eapply Hn.
  - destruct (fs !! (y :: d)) as [[]|] eqn:Hd; try discriminate.
    rewrite (Hdir _ Hd).
    destruct (fs !! (x :: p)) eqn:Hl; [|discriminate].
    intros [= <-]. rewrite lookup_insert_ne; [by rewrite Hl|].
    intros ->. destruct Hq as [Hq|[c0 Hq]]; [congruence|].
    rewrite Hq in Hl. injection Hl as <-. by eapply Hn.
Qed.

Lemma Lstat_insert_same (fs : FS) (q : path) (n : node) :
  q <> [] -> dir_at fs (Dir q) = Ok tt ->
  (fs !! q = None \/ exists c0, fs !! q = Some (File c0)) ->
  Lstat (<[q := n]> fs) q = Ok n.
Proof.
  intros Hq Hd Hf. unfold Lstat. destruct q as [|x q]; [done|].
  assert (dir_at (<[x :: q := n]> fs) (Dir (x :: q)) = Ok tt) as ->.
  { revert Hd. unfold dir_at. destruct (Dir (x :: q)) as [|y d] eqn:HD; [done|].
    destruct (fs !! (y :: d)) as [[]|] eqn:Hl; try discriminate.
    intros _. rewrite lookup_insert_ne; [by rewrite Hl|].
    intros Heq. destruct Hf as [Hf|[c0 Hf]]; congruence. }
  by rewrite lookup_insert_eq.
Qed.

(** Where [write_at] writes: at a place that held a file or nothing, in
    a directory that is there; and [resolve] then finds what was
    written, with the same number of links to follow. *)
Lemma write_at_Ok (fuel : nat) (fs fs' : FS) (p : path) (c : string) :
  write_at fuel fs p c = Ok fs' ->
  exists q, fs' = <[q := File c]> fs /\ q <> [] /\
            dir_at fs (Dir q) = Ok tt /\
            (fs !! q = None \/ exists c0, fs !! q = Some (File c0)) /\
            resolve fuel fs' p = Ok (q, File c).
Proof.
  assert (forall r c0, Lstat fs r = Ok (File c0) ->
            r <> [] /\ dir_at fs (Dir r) = Ok tt /\ fs !! r = Some (File c0)) as HF.
  { intros r c0. unfold Lstat. destruct r as [|x r]; [discriminate|].
    destruct (dir_at fs (Dir (x :: r))) as [[]|]; [|discriminate].
    destruct (fs !! (x :: r)); [|discriminate]. by intros [= ->]. }
  assert (forall r, Lstat fs r = Err ENOENT -> dir_at fs (Dir r) = Ok tt ->
            r <> [] /\ fs !! r = None) as HN.
  { intros r. unfold Lstat. destruct r as [|x r]; [discriminate|].
    intros H Hd. rewrite Hd in H.
    destruct (fs !! (x :: r)); [discriminate|done]. }
  revert p. induction fuel as [|fuel IH]; intros p; cbn [write_at resolve].
  - destruct (Lstat fs p) as [[c0| |t]|en] eqn:HL; try discriminate.
    + intros [= <-]. destruct (HF _ _ HL) as (Hp & Hd & Hl).
      exists p. rewrite Lstat_insert_same by eauto. repeat split; eauto.
    + destruct en; try discriminate.
      destruct (dir_at fs (Dir p)) as [[]|] eqn:Hd; [|discriminate].
      intros [= <-]. destruct (HN _ HL Hd) as (Hp & Hl).
      exists p. rewrite Lstat_insert_same by eauto. repeat split; eauto.
  - destruct (Lstat fs p) as [[c0| |t]|en] eqn:HL; try discriminate.
    + intros [= <-]. destruct (HF _ _ HL) as (Hp & Hd & Hl).
      exists p. rewrite Lstat_insert_same by eauto. repeat split; eauto.
    + intros HW. destruct (IH _ HW) as (q & -> & Hq & Hd & Hf & HR).
      exists q. repeat split; try done.
      rewrite (Lstat_insert_file _ _ _ _ (Link t) Hf); [done|congruence|done].
    + destruct en; try discriminate.
      destruct (dir_at fs (Dir p)) as [[]|] eqn:Hd; [|discriminate].
      intros [= <-]. destruct (HN _ HL Hd) as (Hp & Hl).
      exists p. rewrite Lstat_insert_same by eauto. repeat split; eauto.
Qed.

Lemma ReadFile_WriteFile (fs fs' : FS) (p : path) (c : string) :
  WriteFile fs p c = Ok fs' -> ReadFile fs' p = Ok c.
Proof.
  intros HW. unfold ReadFile, Stat.
  by destruct (write_at_Ok _ _ _ _ _ HW) as (q & _ & _ & _ & _ & ->).
Qed.

(** ** [Get] *)

Lemma NewVersion_nonempty (v : string) :
  is_Some (semver.NewVersion v) -> v <> EmptyString.
Proof. intros [x Hx] ->. discriminate Hx. Qed.

(** [Get] from its call of [cache] on. *)
Lemma Get_at_cache (sha : string -> string) (e : env) (w w2 : world)
  (namespace command version : string) (source : Source)
  (options : list option_) (pv : path) (sourceURL sum : string) :
  reaches_cache e w namespace command version source options pv sourceURL sum w2 ->
  Get sha e w namespace command version (Some source) options =
    match cache sha e w2 sourceURL sum with
    | ((_, _, Some err), w3) => (Return (Some pv, Some err), w3)
    | ((sum', cleanup, None), w3) =>
        let '(r, w4) := link e w3 namespace command version sum' in
        deferred cleanup
          match r with
          | Return err => Return (Some pv, err)
          | Panic => Panic
          end w4
    end.
Proof.
  intros (Hn & Hc & Hv & Hu & w1 & sumURL & Hs & HP & Hg & Hsrc & Hsum).
  unfold Get.
  apply String.eqb_neq in Hn as ->. apply String.eqb_neq in Hc as ->.
  pose proof (NewVersion_nonempty _ Hv) as Hv'.
  apply String.eqb_neq in Hv' as ->.
  rewrite (bool_decide_eq_true_2 _ Hv). cbn [negb].
  rewrite Hu, Hs, HP, Hg, Hsrc, Hsum. reflexivity.
Qed.

(** When [cache] returns an error, [Get] returns it at once: the world
    is left as [cache] left it, and the callback that [cache] returned
    with the error is not called. *)
Lemma Get_cache_error_skips_cleanup (sha : string -> string) (e : env)
  (w w2 w3 : world) (namespace command version : string) (source : Source)
  (options : list option_) (pv : path) (sourceURL sum s : string)
  (done : option path) (err : error) :
  reaches_cache e w namespace command version source options pv sourceURL sum w2 ->
  cache sha e w2 sourceURL sum = ((s, done, Some err), w3) ->
  Get sha e w namespace command version (Some source) options
    = (Return (Some pv, Some err), w3).
Proof. intros H Hc. by rewrite (Get_at_cache _ _ _ _ _ _ _ _ _ _ _ _ H), Hc. Qed.

(** When [cache] returns no error and a callback, the callback is
    called once [link] is over, whether [link] returned an error or
    panicked. *)
Lemma Get_cache_ok_runs_cleanup (sha : string -> string) (e : env)
  (w w2 w3 w4 : world) (namespace command version : string) (source : Source)
  (options : list option_) (pv : path) (sourceURL sum s : string)
  (tmpfile : path) (r : outcome (option error)) :
  reaches_cache e w namespace command version source options pv sourceURL sum w2 ->
  cache sha e w2 sourceURL sum = ((s, Some tmpfile, None), w3) ->
  link e w3 namespace command version s = (r, w4) ->
  exists r', Get sha e w namespace command version (Some source) options
               = (r', run_done w4 tmpfile) /\
             events (run_done w4 tmpfile) = events w4 ++ [Cleanup tmpfile].
Proof.
  intros H Hc Hl. rewrite (Get_at_cache _ _ _ _ _ _ _ _ _ _ _ _ H), Hc, Hl.
  cbn [deferred]. eexists. split; [reflexivity|].
  unfold run_done. destruct (IsNotExist _); [done|].
  by destruct (Remove _ _).
Qed.

(** C7.  A call of [Get] that comes to download the binary, with a
    non-empty expected checksum that is not in the cache and is not the
    digest of the bytes received: [Get] returns the checksum mismatch
    error, and the world it leaves is the one the download left, that
    is the old filesystem with the temporary file written and one more
    request.  Nothing was renamed into the cache and no link was made;
    the temporary file still holds the bytes. *)
Theorem Get_checksum_mismatch (sha : string -> string) (e : env)
  (w w2 w3 : world) (namespace command version : string) (source : Source)
  (options : list option_) (pv : path) (sourceURL sum : string) (r : response) :
  let tmpfile := JoinAbs (cachePath e) [$(Now e +:+ ".partial")] in
  reaches_cache e w namespace command version source options pv sourceURL sum w2 ->
  sum <> EmptyString ->
  cached e w2 sum = false ->
  download e w2 sourceURL tmpfile "application/octet-stream" = (None, w3) ->
  http e sourceURL = Reply r ->
  sha (Body r) <> sum ->
  Get sha e w namespace command version (Some source) options
    = (Return (Some pv, Some ErrChecksumMismatch), w3) /\
  WriteFile (files w2) tmpfile (Body r) = Ok (files w3) /\
  events w3 = events w2 ++ [Request sourceURL] /\
  ReadFile (files w3) tmpfile = Ok (Body r).
Proof.
  intros tmpfile H Hsum Hcached Hd Hr Hne.
  assert (WriteFile (files w2) tmpfile (Body r) = Ok (files w3) /\
          events w3 = events w2 ++ [Request sourceURL]) as [HW Hev].
  { revert Hd. unfold download. rewrite Hr.
    destruct (is_ok _); [discriminate|].
    destruct (negb _); [discriminate|].
    destruct (negb _); [discriminate|]. cbn [files emit].
    destruct (WriteFile _ _ _) as [fs|]; [|discriminate].
    destruct (BodyErr r); [discriminate|]. by intros [= <-]. }
  pose proof (ReadFile_WriteFile _ _ _ _ HW) as HR.
  repeat split; try done.
  apply (Get_cache_error_skips_cleanup _ _ _ _ _ _ _ _ _ _ _ _ _ EmptyString
           (Some tmpfile) _ H).
  unfold cache. rewrite Hcached. fold tmpfile. rewrite Hd.
  apply String.eqb_neq in Hsum as ->.
  unfold verify, calculateChecksum. rewrite HR.
  apply String.eqb_neq in Hne as ->. reflexivity.
Qed.

Lemma Get_checksum_mismatch_witness :
  let w2 := {| files := <[["work"; "binr"; ".cache"] := Directory]>
                          (<[["work"; "binr"] := Directory]> (files fresh));
               events := [Request "http://dl/v1.0.0/bad.sum"] |} in
  let w3 := {| files := <[tmp := File "binary 1.0.0"]> (files w2);
               events := events w2 ++ [Request "http://dl/v1.0.0/testbin"] |} in
  Get digest homeless fresh "myapp" "testbin" "v1.0.0" (Some wrong_source) []
    = (Return (Some (myapp ++ ["testbin-v1.0.0"]), Some ErrChecksumMismatch), w3) /\
  WriteFile (files w2) tmp "binary 1.0.0" = Ok (files w3) /\
  events w3 = events w2 ++ [Request "http://dl/v1.0.0/testbin"] /\
  ReadFile (files w3) tmp = Ok "binary 1.0.0".
Proof.
  intros w2 w3.
  apply (Get_checksum_mismatch digest homeless fresh w2 w3 "myapp" "testbin"
           "v1.0.0" wrong_source [] (myapp ++ ["testbin-v1.0.0"])
           "http://dl/v1.0.0/testbin" "0000"
           {| StatusCode := 200; ContentType := "application/octet-stream";
              Body := "binary 1.0.0"; BodyErr := false |}).
  - repeat split; try discriminate.
    + eexists; reflexivity.
    + exists {| files := files w2; events := [] |}, "http://dl/v1.0.0/bad.sum".
      repeat split; vm_compute; reflexivity.
  - discriminate.
  - vm_compute; reflexivity.
  - vm_compute; reflexivity.
  - reflexivity.
  - discriminate.
Defined.

(** ** Strings and paths *)

Lemma str_app_cons (c : ascii) (a b : string) :
  String c a +:+ b = String c (a +:+ b).
Proof. reflexivity. Qed.

Lemma str_app_assoc (a b c : string) : (a +:+ b) +:+ c = a +:+ (b +:+ c).
Proof.
  induction a as [|x a IH]; [done|]. rewrite !str_app_cons. by f_equal.
Qed.

Lemma str_app_empty_r (a : string) : a +:+ EmptyString = a.
Proof.
  induction a as [|x a IH]; [done|]. rewrite str_app_cons. by f_equal.
Qed.

Lemma rev_app_app (a b : string) :
  String.rev_app a b = String.rev_app a EmptyString +:+ b.
Proof.
  revert b. induction a as [|c a IH]; intros b; cbn [String.rev_app]; [done|].
  rewrite (IH (String c b)), (IH (String c EmptyString)).
  by rewrite str_app_assoc.
Qed.

Lemma split_go_cons (sep : ascii) (cur s : string) :
  exists x l, Str.split_go sep cur s = x :: l.
Proof.
  revert cur. induction s as [|c s IH]; intros cur; cbn [Str.split_go]; [eauto|].
  destruct (Ascii.eqb c sep); eauto.
Qed.

(** A string that splits into one piece is that piece. *)
Lemma split_go_single (sep : ascii) (cur s x : string) :
  Str.split_go sep cur s = [x] -> x = String.rev cur +:+ s.
Proof.
  revert cur. induction s as [|c s IH]; intros cur; cbn [Str.split_go].
  - intros [= <-]. by rewrite str_app_empty_r.
  - destruct (Ascii.eqb c sep).
    + destruct (split_go_cons sep EmptyString s) as (y & l & ->). discriminate.
    + intros ->%IH. unfold String.rev. cbn [String.rev_app].
      rewrite (rev_app_app cur (String c EmptyString)).
      by rewrite str_app_assoc.
Qed.

Lemma is_empty_of_string (s : string) :
  s <> EmptyString -> is_empty $s = false.
Proof.
  intros Hs. unfold is_empty, of_string. cbn [rooted comps].
  destruct (Str.HasPrefix s "/"); [done|]. cbn [negb andb].
  destruct (Str.split "/" s) as [|x [|y l]] eqn:Hsp; try done.
  apply split_go_single in Hsp. cbn in Hsp. subst x.
  by apply String.eqb_neq.
Qed.

Lemma append_nonempty (a b : string) : a <> EmptyString -> a +:+ b <> EmptyString.
Proof. by destruct a. Qed.

Lemma clean_go_app (root : bool) (st a b : list string) :
  clean_go root st (a ++ b) = clean_go root (clean_go root st a) b.
Proof.
  revert st. induction a as [|c a IH]; intros st; [done|].
  cbn [app clean_go].
  destruct (String.eqb c "" || String.eqb c "."); [done|].
  destruct (String.eqb c ".."); [|done].
  destruct (last st) as [top|]; [destruct (String.eqb top "..")|destruct root]; done.
Qed.

(** Pushing one component that is kept. *)
Lemma clean_go_push (root : bool) (st : list string) (c : string) :
  c <> EmptyString -> c <> "." -> c <> ".." ->
  clean_go root st [c] = st ++ [c].
Proof.
  intros H1 H2 H3. cbn [clean_go].
  apply String.eqb_neq in H1 as ->. apply String.eqb_neq in H2 as ->.
  by apply String.eqb_neq in H3 as ->.
Qed.

(** An absolute path does not grow a component [".."]. *)
Lemma clean_go_rooted_no_dotdot (st cs : list string) :
  ".." ∉ st -> ".." ∉ clean_go true st cs.
Proof.
  revert st. induction cs as [|c cs IH]; intros st Hst; [done|].
  cbn [clean_go].
  destruct (String.eqb c "" || String.eqb c "."); [by apply IH|].
  destruct (String.eqb c "..") eqn:Hc.
  - destruct (last st) as [top|] eqn:Hl; [|by apply IH].
    destruct (String.eqb top "..") eqn:Ht.
    + apply String.eqb_eq in Ht as ->. apply last_Some_elem_of in Hl. done.
    + apply IH. intros Hin. apply Hst.
      destruct (exists_last (l := st)) as (st0 & x & ->); [by intros ->|].
      rewrite removelast_last in Hin. apply elem_of_app. by left.
  - apply IH. apply String.eqb_neq in Hc.
    intros [Hin|Hin%list_elem_of_singleton]%elem_of_app; [done|congruence].
Qed.

(** Cleaning a relative path first and resolving it against a
    directory then is resolving it at once. *)
Lemma clean_go_relative (base st cs : list string) :
  ".." ∉ base ->
  Forall (fun c => c <> EmptyString /\ c <> ".") st ->
  clean_go true base (clean_go false st cs)
    = clean_go true (clean_go true base st) cs.
Proof.
  intros Hb. revert st. induction cs as [|c cs IH]; intros st Hst; [done|].
  cbn [clean_go].
  destruct (String.eqb c "" || String.eqb c ".") eqn:Hskip; [by apply IH|].
  apply orb_false_iff in Hskip as [H1%String.eqb_neq H2%String.eqb_neq].
  set (X := clean_go true base st).
  assert (".." ∉ X) as HX by by apply clean_go_rooted_no_dotdot.
  assert (forall st', Forall (fun c => c <> EmptyString /\ c <> ".") st' ->
            clean_go true base st' = clean_go true X [c] ->
            clean_go true base (clean_go false st' cs)
              = match last X with
                | Some top =>
                    if String.eqb top ".."
                    then clean_go true (X ++ [c]) cs
                    else if String.eqb c ".." then clean_go true (removelast X) cs
                         else clean_go true (X ++ [c]) cs
                | None => if String.eqb c ".." then clean_go true X cs
                          else clean_go true (X ++ [c]) cs
                end) as Hstep.
  { intros st' Hst' Heq. rewrite IH by done. rewrite Heq. cbn [clean_go].
    apply String.eqb_neq in H1 as ->. apply String.eqb_neq in H2 as ->.
    cbn [orb]. destruct (String.eqb c "..") eqn:Hc.
    - destruct (last X) as [top|]; [|done].
      destruct (String.eqb top ".."); done.
    - destruct (last X) as [top|]; [|done].
      destruct (String.eqb top ".."); done. }
  assert (forall top, last X = Some top -> String.eqb top ".." = false) as Htop.
  { intros top Hl. apply String.eqb_neq. intros ->.
    by apply last_Some_elem_of in Hl. }
  destruct (String.eqb c "..") eqn:Hc.
  - apply String.eqb_eq in Hc as ->.
    destruct (last st) as [top|] eqn:Hl.
    + destruct (String.eqb top "..") eqn:Ht.
      * rewrite (Hstep (st ++ [".."])).
        -- destruct (last X) as [t|] eqn:HlX; [by rewrite (Htop t)|done].
        -- apply Forall_app. split; [done|]. by apply Forall_singleton.
        -- by rewrite clean_go_app.
      * destruct (exists_last (l := st)) as (st0 & x & ->); [by intros ->|].
        rewrite last_snoc in Hl. injection Hl as ->.
        rewrite removelast_last.
        apply Forall_app in Hst as [Hst0 [Hx1 Hx2]%Forall_singleton].
        apply String.eqb_neq in Ht.
        rewrite IH by done. f_equal.
        subst X. rewrite clean_go_app, clean_go_push by done.
        rewrite last_snoc. apply String.eqb_neq in Ht as ->.
        by rewrite removelast_last.
    + apply last_None in Hl. subst st. cbn [app].
      rewrite (Hstep [".."]).
      * destruct (last X) as [t|] eqn:HlX; [by rewrite (Htop t)|done].
      * by apply Forall_singleton.
      * done.
  - rewrite (Hstep (st ++ [c])).
    + destruct (last X) as [t|] eqn:HlX; [by rewrite (Htop t)|done].
    + apply Forall_app. split; [done|]. by apply Forall_singleton.
    + by rewrite clean_go_app.
Qed.

(** A relative path can be cleaned before it is resolved against the
    working directory or not: [filepath.Join] cleans, [filepath.Abs]
    and the operating system resolve. *)
Lemma Abs_Clean_relative (cwd : path) (p : gopath) :
  ".." ∉ cwd -> rooted p = false -> Abs cwd (Clean p) = Abs cwd p.
Proof.
  intros Hcwd Hp. unfold Abs, Clean. cbn [rooted comps]. rewrite Hp.
  by rewrite clean_go_relative.
Qed.

(** Without a component [".."] cleaning only drops components. *)
Lemma clean_go_no_dotdot (root : bool) (st cs : list string) :
  ".." ∉ cs -> clean_go root st cs = st ++ filter kept cs.
Proof.
  revert st. induction cs as [|c cs IH]; intros st Hcs.
  - by rewrite app_nil_r.
  - apply not_elem_of_cons in Hcs as [Hc Hcs]. cbn [clean_go].
    rewrite filter_cons. destruct (decide (kept c)) as [Hk|Hk].
    + apply Is_true_true in Hk. unfold kept in Hk.
      apply negb_true_iff in Hk. rewrite Hk.
      assert (String.eqb c ".." = false) as -> by (apply String.eqb_neq; congruence).
      rewrite IH by done. by rewrite <- app_assoc.
    + apply Is_true_false in Hk. unfold kept in Hk.
      apply negb_false_iff in Hk. rewrite Hk. by apply IH.
Qed.

Lemma filter_kept_idemp (cs : list string) :
  filter kept (filter kept cs) = filter kept cs.
Proof.
  induction cs as [|c cs IH]; [done|].
  rewrite (filter_cons kept c cs). case_decide as Hk; [|done].
  rewrite (filter_cons kept c (filter kept cs)).
  rewrite decide_True by done. by rewrite IH.
Qed.

Lemma filter_kept_no_dotdot (cs : list string) :
  ".." ∉ cs -> ".." ∉ filter kept cs.
Proof. intros H Hin. apply H. by apply list_elem_of_filter in Hin as [_ ?]. Qed.





(** ** [isNewer] *)

(** What [os.ReadDir] lists is what the map holds under the
    directory. *)
Lemma elem_of_entries (fs : FS) (d : path) (name : string) (n : node) :
  (name, n) ∈ entries fs d <-> fs !! (d ++ [name]) = Some n.
Proof.
  unfold entries. rewrite list_elem_of_omap. split.
  - intros ([p n0] & Hin & Hf). apply elem_of_map_to_list in Hin.
    destruct (last p) as [nm|]; [|discriminate].
    destruct (decide (p = d ++ [nm])) as [->|]; [|discriminate].
    by injection Hf as -> ->.
  - intros Hl. exists (d ++ [name], n). split; [by apply elem_of_map_to_list|].
    rewrite last_snoc. by rewrite decide_True.
Qed.

Lemma ReadDir_elem_of (fs : FS) (p : path) (l : list (string * node))
  (name : string) (n : node) :
  ReadDir fs p = Ok l ->
  exists d, resolve max_links fs p = Ok (d, Directory) /\
            ((name, n) ∈ l <-> fs !! (d ++ [name]) = Some n).
Proof.
  unfold ReadDir. destruct (resolve max_links fs p) as [[d [| |]]|]; try discriminate.
  intros [= <-]. exists d. split; [done|].
  rewrite merge_sort_Permutation. apply elem_of_entries.
Qed.

(** The loop stops at the first entry that does not parse, whatever
    it has seen before. *)
Lemma scan_unparsable (command : string) (l : list (string * node))
  (entry : string * node) (highest : option semver.Version) :
  entry ∈ l -> unparsable command entry ->
  exists entry', scan command l highest = inl entry'.1 /\
                 entry' ∈ l /\ unparsable command entry'.
Proof.
  intros Hin Hu. revert highest.
  induction l as [|[name n] l IH]; intros highest; [by apply elem_of_nil in Hin|].
  cbn [scan].
  assert (entry ∈ l ->
          exists entry', scan command l highest = inl entry'.1 /\
                         entry' ∈ (name, n) :: l /\ unparsable command entry')
    as Hrest.
  { intros H. destruct (IH H highest) as (e' & ? & ? & ?).
    exists e'. split; [done|]. split; [by apply elem_of_cons; right|done]. }
  destruct (IsDir n) eqn:Hd.
  { apply elem_of_cons in Hin as [->|Hin]; [|by apply Hrest].
    destruct Hu as (Hu & _). cbn [fst snd] in Hu. by rewrite Hd in Hu. }
  destruct (Str.HasPrefix name (command +:+ "-")) eqn:Hp; cbn [negb].
  2:{ apply elem_of_cons in Hin as [->|Hin]; [|by apply Hrest].
      destruct Hu as (_ & Hu & _). cbn [fst snd] in Hu. by rewrite Hp in Hu. }
  destruct (semver.NewVersion _) as [v|] eqn:Hv.
  - assert (entry ∈ l) as Hin'.
    { apply elem_of_cons in Hin as [->|Hin]; [|done].
      destruct Hu as (_ & _ & Hu). cbn [fst snd] in Hu. by rewrite Hv in Hu. }
    destruct highest as [h|]; [destruct (semver.GreaterThan v h)|].
    + destruct (IH Hin' (Some v)) as (e' & ? & ? & ?).
      exists e'. split; [done|]. split; [by apply elem_of_cons; right|done].
    + by apply Hrest.
    + destruct (IH Hin' (Some v)) as (e' & ? & ? & ?).
      exists e'. split; [done|]. split; [by apply elem_of_cons; right|done].
  - exists (name, n). split; [done|]. split; [by apply elem_of_cons; left|].
    by repeat split.
Qed.

(** C9, amended.  When the directory of the namespace holds an entry
    that is not a directory, whose name starts with the command and a
    dash and whose rest is no semver, [isNewer] returns the error that
    names such an entry, whichever command the entry was made for.  The
    links [foo-bar] and [foo-bar-v1.0.0] are such entries for the
    command [foo]. *)
Theorem isNewer_reports_unparsable_entry (e : env) (w : world)
  (namespace command versionStr : string) (l : list (string * node))
  (entry : string * node) :
  is_Some (semver.NewVersion versionStr) ->
  ReadDir (files w) (Abs (Getwd e) (Join [dotfilesPath e; $"binr"; $namespace]))
    = Ok l ->
  entry ∈ l -> unparsable command entry ->
  exists entry',
    isNewer e w namespace command versionStr
      = Return (false, Some (ErrNewerForm entry'.1)) /\
    entry' ∈ l /\ unparsable command entry'.
Proof.
  intros [v Hv] HR Hin Hu. unfold isNewer. rewrite Hv, HR.
  destruct (scan_unparsable command l entry None Hin Hu) as (e' & -> & ? & ?).
  by exists e'.
Qed.

Lemma isNewer_reports_unparsable_entry_witness :
  ReadDir (files after_foobar) myapp
    = Ok [("foo-bar", Link (entry (digest "binary 1.0.0")));
          ("foo-bar-v1.0.0", Link (entry (digest "binary 1.0.0")))] /\
  unparsable "foo" ("foo-bar-v1.0.0", Link (entry (digest "binary 1.0.0"))) /\
  exists entry',
    isNewer homeless after_foobar "myapp" "foo" "v1.0.0"
      = Return (false, Some (ErrNewerForm entry'.1)) /\
    entry' ∈ [("foo-bar", Link (entry (digest "binary 1.0.0")));
              ("foo-bar-v1.0.0", Link (entry (digest "binary 1.0.0")))] /\
    unparsable "foo" entry'.
Proof.
  assert (ReadDir (files after_foobar) myapp
          = Ok [("foo-bar", Link (entry (digest "binary 1.0.0")));
                ("foo-bar-v1.0.0", Link (entry (digest "binary 1.0.0")))]) as HR
    by (vm_compute; reflexivity).
  assert (unparsable "foo" ("foo-bar-v1.0.0", Link (entry (digest "binary 1.0.0"))))
    as Hu by (repeat split; reflexivity).
  split; [exact HR|]. split; [exact Hu|].
  apply (isNewer_reports_unparsable_entry homeless after_foobar "myapp" "foo"
           "v1.0.0" _ ("foo-bar-v1.0.0", Link (entry (digest "binary 1.0.0")))).
  - eexists; reflexivity.
  - exact HR.
  - apply elem_of_cons; right. apply elem_of_cons; by left.
  - exact Hu.
Defined.

(** The two links of the command [foo-bar], made by [Get], and what
    [isNewer] returns for the command [foo]. *)
Lemma isNewer_stops_at_link_of_foo_bar :
  (get fresh "myapp" "foo-bar" "v1.0.0" plain_source).1
    = Return (Some (myapp ++ ["foo-bar-v1.0.0"]), None) /\
  isNewer homeless after_foobar "myapp" "foo" "v1.0.0"
    = Return (false, Some (ErrNewerForm "foo-bar")).
Proof. vm_compute. split; reflexivity. Qed.

(** When no entry is a file or link with the prefix of the command, the
    loop leaves [highest] as it was. *)
Lemma scan_no_match (command : string) (l : list (string * node))
  (highest : option semver.Version) :
  Forall (fun entry => IsDir entry.2 = true \/
                       Str.HasPrefix entry.1 (command +:+ "-") = false) l ->
  scan command l highest = inr highest.
Proof.
  induction 1 as [|[name n] l [Hd|Hp] _ IH]; [done|..]; cbn [scan fst snd] in *.
  - by rewrite Hd.
  - destruct (IsDir n); [done|]. by rewrite Hp.
Qed.

(** With no matching entry in the directory, [isNewer] calls
    [GreaterThan] on the nil pointer. *)
Lemma isNewer_no_match_panics (e : env) (w : world)
  (namespace command versionStr : string) (l : list (string * node)) :
  is_Some (semver.NewVersion versionStr) ->
  ReadDir (files w) (Abs (Getwd e) (Join [dotfilesPath e; $"binr"; $namespace]))
    = Ok l ->
  Forall (fun entry => IsDir entry.2 = true \/
                       Str.HasPrefix entry.1 (command +:+ "-") = false) l ->
  isNewer e w namespace command versionStr = Panic.
Proof.
  intros [v Hv] HR Hl. unfold isNewer. rewrite Hv, HR.
  by rewrite (scan_no_match _ _ None Hl).
Qed.

(** An entry with the prefix of the command whose rest parses makes
    [highest] a version, if the loop comes to its end. *)
Lemma scan_match (command : string) (l : list (string * node))
  (entry : string * node) (highest : option semver.Version) :
  entry ∈ l -> IsDir entry.2 = false ->
  Str.HasPrefix entry.1 (command +:+ "-") = true ->
  scan command l highest <> inr None.
Proof.
  intros Hin Hd Hp.
  assert (forall l h, scan command l (Some h) <> inr None) as Hsome.
  { clear. intros l. induction l as [|[name n] l IH]; intros h; [done|].
    cbn [scan]. destruct (IsDir n); [done|].
    destruct (negb _); [done|].
    destruct (semver.NewVersion _) as [v|]; [|done].
    destruct (semver.GreaterThan v h); done. }
  revert highest. induction l as [|[name n] l IH]; intros highest;
    [by apply elem_of_nil in Hin|].
  cbn [scan]. apply elem_of_cons in Hin as [->|Hin].
  - cbn [fst snd] in Hd, Hp. rewrite Hd, Hp. cbn [negb].
    destruct (semver.NewVersion _) as [v|]; [|done].
    destruct highest as [h|]; [|done].
    destruct (semver.GreaterThan v h); done.
  - destruct (IsDir n); [by apply IH|].
    destruct (negb _); [by apply IH|].
    destruct (semver.NewVersion _) as [v|]; [|done].
    destruct highest as [h|]; [|done].
    destruct (semver.GreaterThan v h); [done|by apply IH].
Qed.

(** ** Names without a separator *)

Lemma all_app (p : ascii -> bool) (a b : string) :
  Str.all p (a +:+ b) = Str.all p a && Str.all p b.
Proof.
  induction a as [|c a IH]; [done|].
  rewrite str_app_cons. cbn [Str.all]. rewrite IH. by rewrite andb_assoc.
Qed.

Lemma all_rev_app (p : ascii -> bool) (a b : string) :
  Str.all p (String.rev_app a b) = Str.all p a && Str.all p b.
Proof.
  revert b. induction a as [|c a IH]; intros b; [done|].
  cbn [String.rev_app Str.all]. rewrite IH. cbn [Str.all].
  by destruct (p c), (Str.all p a), (Str.all p b).
Qed.

Lemma all_impl (p q : ascii -> bool) (s : string) :
  (forall c, p c = true -> q c = true) -> Str.all p s = true -> Str.all q s = true.
Proof.
  intros Hpq. induction s as [|c s IH]; [done|]. cbn [Str.all].
  intros [Hc Hs]%andb_true_iff. by rewrite (Hpq _ Hc), IH.
Qed.

Lemma span_app (p : ascii -> bool) (s a b : string) :
  Str.span p s = (a, b) -> s = a +:+ b /\ Str.all p a = true.
Proof.
  revert a b. induction s as [|c s IH]; intros a b; cbn [Str.span].
  - by intros [= <- <-].
  - destruct (p c) eqn:Hc; [|by intros [= <- <-]].
    destruct (Str.span p s) as [a' b']. intros [= <- <-].
    destruct (IH a' b' eq_refl) as [-> Ha].
    split; [done|]. cbn [Str.all]. by rewrite Hc, Ha.
Qed.

(** The pieces of a string hold all its characters but the
    separators. *)
Lemma split_go_all (q : ascii -> bool) (sep : ascii) (cur s : string) :
  q sep = true ->
  forallb (Str.all q) (Str.split_go sep cur s) = true ->
  Str.all q cur = true /\ Str.all q s = true.
Proof.
  intros Hsep. revert cur. induction s as [|c s IH]; intros cur; cbn [Str.split_go].
  - cbn [forallb]. rewrite andb_true_r. unfold String.rev.
    rewrite all_rev_app. cbn [Str.all]. by rewrite andb_true_r.
  - destruct (Ascii.eqb c sep) eqn:Hc.
    + apply Ascii.eqb_eq in Hc as ->. cbn [forallb Str.all].
      intros [Hcur Hrest]%andb_true_iff. unfold String.rev in Hcur.
      rewrite all_rev_app in Hcur. cbn [Str.all] in Hcur.
      rewrite andb_true_r in Hcur.
      destruct (IH _ Hrest) as [_ Hs]. by rewrite Hsep, Hs.
    + intros [Hcur Hs]%IH. cbn [Str.all] in *.
      apply andb_true_iff in Hcur as [-> ->]. by rewrite Hs.
Qed.

Lemma split_go_lacks (sep : ascii) (cur s : string) :
  Str.lacks sep s = true ->
  Str.split_go sep cur s = [String.rev cur +:+ s].
Proof.
  unfold Str.lacks. revert cur.
  induction s as [|c s IH]; intros cur; cbn [Str.split_go Str.all].
  - by rewrite str_app_empty_r.
  - intros [Hc Hs]%andb_true_iff. apply negb_true_iff in Hc as ->.
    rewrite IH by done. unfold String.rev. cbn [String.rev_app].
    rewrite (rev_app_app cur (String c EmptyString)).
    by rewrite str_app_assoc.
Qed.

(** A name without a slash is one component. *)
Lemma split_lacks (s : string) :
  Str.lacks "/" s = true -> Str.split "/" s = [s].
Proof. intros H. unfold Str.split. by rewrite split_go_lacks. Qed.

Lemma ident_list_lacks_slash (s : string) :
  semver.ident_list s = true -> Str.lacks "/" s = true.
Proof.
  unfold semver.ident_list, Str.lacks, Str.split. intros H.
  apply (split_go_all _ "." EmptyString s); [done|].
  rewrite forallb_forall in *. intros part Hin.
  specialize (H part Hin). apply andb_true_iff in H as [_ H].
  revert H. apply all_impl. intros c. unfold semver.ident_char.
  destruct (Ascii.eqb c "/") eqn:Hc; [|done].
  by apply Ascii.eqb_eq in Hc as ->.
Qed.

Lemma digits_lack_slash (s : string) :
  Str.all Str.is_digit s = true -> Str.lacks "/" s = true.
Proof.
  apply all_impl. intros c.
  destruct (Ascii.eqb c "/") eqn:Hc; [|done].
  by apply Ascii.eqb_eq in Hc as ->.
Qed.

Lemma lacks_app (sep : ascii) (a b : string) :
  Str.lacks sep (a +:+ b) = Str.lacks sep a && Str.lacks sep b.
Proof. apply all_app. Qed.

Lemma dot_digits_lacks_slash (s ds rest : string) :
  semver.dot_digits s = (ds, rest) ->
  Str.lacks "/" rest = true -> Str.lacks "/" s = true.
Proof.
  unfold semver.dot_digits.
  destruct s as [|c s]; [by intros [= <- <-]|].
  destruct (Ascii.eqb c ".") eqn:Hc.
  - apply Ascii.eqb_eq in Hc as ->.
    destruct (Str.span Str.is_digit s) as [a b] eqn:Hsp.
    destruct (span_app _ _ _ _ Hsp) as [-> Ha].
    destruct (Str.nonempty a); intros [= <- <-]; [|done].
    intros Hb. change (Str.lacks "/" (a +:+ b) = true).
    rewrite lacks_app, Hb. by rewrite (digits_lack_slash _ Ha).
  - assert (forall X : string * string,
              match c with "."%char => X | _ => (EmptyString, String c s) end
              = (EmptyString, String c s)) as ->.
    { intros X. apply Ascii.eqb_neq in Hc.
      destruct c as [[] [] [] [] [] [] [] []]; try done. }
    by intros [= <- <-].
Qed.

Lemma tail_lacks_slash (s p m : string) :
  semver.tail s = Some (p, m) -> Str.lacks "/" s = true.
Proof.
  unfold semver.tail. destruct s as [|c s]; [done|].
  destruct (Ascii.eqb c "+") eqn:Hplus.
  { apply Ascii.eqb_eq in Hplus as ->.
    destruct (semver.ident_list s) eqn:Hi; [|discriminate]. intros _.
    change (Str.lacks "/" s = true). by apply ident_list_lacks_slash. }
  destruct (Ascii.eqb c "-") eqn:Hminus.
  { apply Ascii.eqb_eq in Hminus as ->.
    destruct (Str.span _ s) as [a b] eqn:Hsp.
    destruct (span_app _ _ _ _ Hsp) as [Heq _].
    destruct (semver.ident_list a) eqn:Ha; [|discriminate].
    apply ident_list_lacks_slash in Ha.
    intros H. change (Str.lacks "/" s = true). rewrite Heq, lacks_app, Ha.
    cbn [andb]. revert H.
    destruct b as [|c b]; [done|].
    destruct (semver.ident_list b) eqn:Hb; [|discriminate]. intros _.
    apply ident_list_lacks_slash in Hb.
    assert (c = "+"%char) as ->.
    { revert Hsp. clear. revert a. induction s as [|x s IH]; intros a; cbn [Str.span].
      - discriminate.
      - destruct (negb (Ascii.eqb x "+")) eqn:Hx.
        + destruct (Str.span _ s) as [a' b'] eqn:Hs'. intros [= <- ->]. by eapply IH.
        + intros [= <- -> ->]. apply negb_false_iff in Hx.
          by apply Ascii.eqb_eq in Hx. }
    exact Hb. }
  apply Ascii.eqb_neq in Hplus, Hminus.
  destruct c as [[] [] [] [] [] [] [] []]; done.
Qed.

(** A semver has no slash in it. *)
Lemma NewVersion_lacks_slash (v : string) :
  is_Some (semver.NewVersion v) -> Str.lacks "/" v = true.
Proof.
  intros [x Hx]. revert Hx. unfold semver.NewVersion.
  set (s := match v with String "v" s' => s' | _ => v end).
  assert (Str.lacks "/" s = true -> Str.lacks "/" v = true) as Hs.
  { subst s. destruct v as [|c v]; [done|].
    destruct (Ascii.eqb c "v") eqn:Hc.
    - by apply Ascii.eqb_eq in Hc as ->.
    - apply Ascii.eqb_neq in Hc.
      destruct c as [[] [] [] [] [] [] [] []]; done. }
  destruct (Str.span Str.is_digit s) as [ma s1] eqn:H1.
  destruct (span_app _ _ _ _ H1) as [Hma Hd].
  destruct (Str.nonempty ma); [|discriminate].
  destruct (semver.dot_digits s1) as [mi s2] eqn:H2.
  destruct (semver.dot_digits s2) as [pa s3] eqn:H3.
  destruct (semver.tail s3) as [[p m]|] eqn:H4; [|discriminate].
  intros _. apply Hs. rewrite Hma, lacks_app, (digits_lack_slash _ Hd).
  apply (dot_digits_lacks_slash _ _ _ H2), (dot_digits_lacks_slash _ _ _ H3).
  by eapply tail_lacks_slash.
Qed.

(** The name of a versioned link: one component, and one that cleaning
    keeps. *)
Lemma versioned_name (command version : string) :
  Str.lacks "/" command = true -> is_Some (semver.NewVersion version) ->
  let name := command +:+ "-" +:+ version in
  Str.split "/" name = [name] /\
  name <> EmptyString /\ name <> "." /\ name <> "..".
Proof.
  intros Hc Hv name. split.
  - apply split_lacks. unfold name. rewrite !lacks_app, Hc.
    by rewrite (NewVersion_lacks_slash _ Hv).
  - unfold name. destruct command as [|c1 [|c2 [|c3 command]]]; done.
Qed.

Lemma HasPrefix_app (pre s : string) : Str.HasPrefix (pre +:+ s) pre = true.
Proof.
  unfold Str.HasPrefix. induction pre as [|c pre IH]; [by destruct s|].
  rewrite str_app_cons. cbn [String.prefix].
  destruct (ascii_dec c c); [exact IH|done].
Qed.

Lemma TrimPrefix_app (pre s : string) : Str.TrimPrefix (pre +:+ s) pre = s.
Proof.
  unfold Str.TrimPrefix. rewrite HasPrefix_app.
  induction pre as [|c pre IH]; [by destruct s|].
  by rewrite str_app_cons.
Qed.

Lemma clean_go_snoc (root : bool) (st cs : list string) (name : string) :
  name <> EmptyString -> name <> "." -> name <> ".." ->
  clean_go root st (cs ++ [name]) = clean_go root st cs ++ [name].
Proof. intros. rewrite clean_go_app. by apply clean_go_push. Qed.

(** One more component at the end of the elements of [filepath.Join] is
    one more component at the end of the absolute path. *)
Lemma Abs_Join_snoc (cwd : path) (l : list gopath) (name : string) :
  Str.split "/" name = [name] ->
  name <> EmptyString -> name <> "." -> name <> ".." ->
  filter (fun e => negb (is_empty e)) l <> [] ->
  Abs cwd (Join (l ++ [$name])) = Abs cwd (Join l) ++ [name].
Proof.
  intros Hsp H1 H2 H3 Hl. unfold Join. rewrite filter_app.
  rewrite (filter_cons _ $name), filter_nil.
  rewrite decide_True by (by rewrite is_empty_of_string).
  destruct (filter _ l) as [|e0 es]; [done|]. cbn [app].
  change (e0 :: es ++ [$name]) with ((e0 :: es) ++ [$name]).
  rewrite flat_map_app. cbn [flat_map comps of_string]. rewrite Hsp, app_nil_r.
  unfold Abs, Clean. cbn [rooted comps].
  destruct (rooted e0); by rewrite !clean_go_snoc.
Qed.

(** The versioned path of a command without a slash: the directory of
    the namespace, which is the one [isNewer] reads, and the name of the
    link in it. *)
Lemma Path_versioned (e : env) (namespace command version : string) :
  namespace <> EmptyString -> command <> EmptyString ->
  Str.lacks "/" command = true -> is_Some (semver.NewVersion version) ->
  Path e namespace command version
    = OK (Abs (Getwd e) (Join [dotfilesPath e; $"binr"; $namespace])
            ++ [command +:+ "-" +:+ version]).
Proof.
  intros Hn Hc Hl Hv. unfold Path.
  apply String.eqb_neq in Hn as ->. apply String.eqb_neq in Hc as ->.
  pose proof (NewVersion_nonempty _ Hv) as Hv'.
  apply String.eqb_neq in Hv' as ->. cbn [negb].
  destruct Hv as [x Hx]. rewrite Hx. f_equal.
  destruct (versioned_name command version Hl (ex_intro _ x Hx))
    as (Hsp & H1 & H2 & H3).
  apply (Abs_Join_snoc _ [dotfilesPath e; $"binr"; $namespace]); try done.
  rewrite filter_cons. case_decide; [done|].
  by rewrite filter_cons, decide_True.
Qed.

Lemma resolve_directory (fuel : nat) (fs : FS) (d : path) :
  Lstat fs d = Ok Directory -> resolve (S fuel) fs d = Ok (d, Directory).
Proof. intros H. cbn [resolve]. by rewrite H. Qed.

Lemma Path_OK_nonempty (e : env) (namespace command version : string) (p : path) :
  Path e namespace command version = OK p ->
  namespace <> EmptyString /\ command <> EmptyString.
Proof.
  unfold Path.
  destruct (String.eqb namespace "") eqn:H1; [done|].
  destruct (String.eqb command "") eqn:H2; [done|].
  by apply String.eqb_neq in H1, H2.
Qed.

(** Where [link] has come to call [isNewer] for a command without a
    slash and a version that is one: the directory that [isNewer]
    reads holds the versioned link that [link] has just made. *)
Lemma link_made_versioned_link (e : env) (fs fs1 fs2 : FS)
  (namespace command version : string) (pv : path) (target : gopath) :
  Str.lacks "/" command = true -> is_Some (semver.NewVersion version) ->
  Path e namespace command version = OK pv ->
  Mkdir fs (Dir pv) = Ok fs1 ->
  Symlink fs1 target pv = Ok fs2 ->
  exists l,
    ReadDir fs2 (Abs (Getwd e) (Join [dotfilesPath e; $"binr"; $namespace]))
      = Ok l /\
    (command +:+ "-" +:+ version, Link target) ∈ l /\
    (forall name n, (name, n) ∈ l ->
       fs !! (Dir pv ++ [name]) = Some n \/
       (name, n) = (command +:+ "-" +:+ version, Link target)).
Proof.
  intros Hl Hv HP HM HS.
  destruct (Path_OK_nonempty _ _ _ _ _ HP) as [Hn Hc].
  rewrite (Path_versioned e _ _ _ Hn Hc Hl Hv) in HP. injection HP as <-.
  set (dir := Abs (Getwd e) (Join [dotfilesPath e; $"binr"; $namespace])) in *.
  set (name := command +:+ "-" +:+ version) in *.
  unfold Dir in *. rewrite removelast_last in *.
  apply create_Ok in HM as (-> & Hfresh & Hne & Hd).
  apply create_Ok in HS as (-> & Hfresh' & _ & _).
  assert (Lstat (<[dir ++ [name] := Link target]> (<[dir := Directory]> fs)) dir
          = Ok Directory) as HL.
  { apply Lstat_insert_fresh; [done|].
    apply Lstat_insert_same; eauto. }
  unfold ReadDir, max_links. rewrite (resolve_directory _ _ _ HL).
  eexists. split; [reflexivity|]. split.
  - rewrite merge_sort_Permutation. apply elem_of_entries.
    by rewrite lookup_insert_eq.
  - intros nm n. rewrite merge_sort_Permutation, elem_of_entries.
    destruct (decide (nm = name)) as [->|Hnm].
    + rewrite lookup_insert_eq. intros [= <-]. by right.
    + rewrite lookup_insert_ne by (by intros [_ ?]%app_inj_tail).
      rewrite lookup_insert_ne; [by left|].
      intros Heq. apply (f_equal length) in Heq.
      rewrite length_app in Heq. cbn in Heq. lia.
Qed.

(** For a command without a slash [link] has made the versioned link
    in the directory that [isNewer] reads, the loop finds it, and
    [link] does not panic. *)
Lemma link_without_slash_never_panics (e : env) (w : world)
  (namespace command version sum : string) :
  Str.lacks "/" command = true ->
  (link e w namespace command version sum).1 <> Panic.
Proof.
  intros Hl. unfold link.
  destruct (Path e namespace command version) as [pv|] eqn:HP; [|done].
  destruct (Mkdir (files w) (Dir pv)) as [fs1|] eqn:HM; [|done].
  cbn [files put].
  destruct (Symlink fs1 _ pv) as [fs2|] eqn:HS; [|done].
  destruct (isNewer e _ namespace command version) as [[ok err]|] eqn:HN.
  - destruct (negb ok || bool_decide (is_Some err)); [done|].
    destruct (Path e namespace command ""); [|done].
    by destruct (Symlink fs2 _ _).
  - exfalso. revert HN. unfold isNewer. cbn [files put].
    destruct (semver.NewVersion version) as [v|] eqn:Hv; [|done].
    destruct (link_made_versioned_link e _ _ _ _ _ _ _ _ Hl
                (ex_intro _ v Hv) HP HM HS) as (l & -> & Hin & _).
    assert (Str.HasPrefix (command +:+ "-" +:+ version) (command +:+ "-") = true)
      as Hpre by (rewrite <- str_app_assoc; apply HasPrefix_app).
    pose proof (scan_match command l _ None Hin eq_refl Hpre) as Hs.
    destruct (scan command l None) as [|[h|]]; done.
Qed.

(** What a call of [link] that returns no error has done, for a command
    without a slash and the newest version: the directory of the
    namespace was not there and has been made, and the versioned and the
    unversioned link have been made in it, both to the cache entry of
    the digest.  As [link] fails where the directory is there, no
    directory ever holds the links of two versions made by [link]. *)
Lemma link_success (e : env) (w w' : world)
  (namespace command version sum : string) :
  let dir := Abs (Getwd e) (Join [dotfilesPath e; $"binr"; $namespace]) in
  let target := Join [$".."; $".cache"; $sum] in
  Str.lacks "/" command = true ->
  link e w namespace command version sum = (Return None, w') ->
  isNewer e w' namespace command version <> Return (false, None) ->
  files w !! dir = None /\
  is_Some (semver.NewVersion version) /\
  exists pu,
    Path e namespace command EmptyString = OK pu /\
    files w' = <[pu := Link target]>
                 (<[dir ++ [command +:+ "-" +:+ version] := Link target]>
                    (<[dir := Directory]> (files w))) /\
    files w' !! pu = Some (Link target) /\
    events w' = events w.
Proof.
  intros dir target Hl. unfold link.
  destruct (Path e namespace command version) as [pv|] eqn:HP; [|done].
  destruct (Mkdir (files w) (Dir pv)) as [fs1|] eqn:HM; [|done].
  cbn [files put]. fold target.
  destruct (Symlink fs1 target pv) as [fs2|] eqn:HS; [|done].
  destruct (isNewer e _ namespace command version) as [[ok err]|] eqn:HN; [|done].
  destruct ok; cbn [negb orb].
  2:{ intros [= <- <-] Hnot. by destruct Hnot. }
  destruct err as [err|]; [done|]. cbn.
  destruct (Path e namespace command "") as [pu|] eqn:HPu; [|done].
  destruct (Symlink fs2 target pu) as [fs3|] eqn:HSu; [|done].
  intros [= <-] _. cbn [files events put].
  assert (is_Some (semver.NewVersion version)) as Hv.
  { revert HN. unfold isNewer.
    destruct (semver.NewVersion version); [eauto|done]. }
  destruct (Path_OK_nonempty _ _ _ _ _ HP) as [Hn Hc].
  rewrite (Path_versioned e _ _ _ Hn Hc Hl Hv) in HP. injection HP as <-.
  fold dir in HM, HS |- *.
  unfold Dir in HM. rewrite removelast_last in HM.
  apply create_Ok in HM as (-> & Hfresh & _ & _).
  apply create_Ok in HS as (-> & _ & _ & _).
  apply create_Ok in HSu as (-> & _ & _ & _).
  repeat split; try done. exists pu. repeat split; try done.
  by rewrite lookup_insert_eq.
Qed.

(** In a tree nothing is under a directory that is not there. *)
Lemma tree_no_orphan (fs : FS) (d : path) (name : string) :
  tree fs -> d <> [] -> fs !! d = None -> fs !! (d ++ [name]) = None.
Proof.
  intros Ht Hd Hnone. destruct (fs !! (d ++ [name])) as [n|] eqn:Hl; [|done].
  apply Ht in Hl. unfold Dir in Hl. rewrite removelast_last in Hl.
  unfold dir_at in Hl. destruct d; [done|]. by rewrite Hnone in Hl.
Qed.

(** The loop over entries that all parse comes to its end. *)
Lemma scan_all_parse (command : string) (l : list (string * node))
  (highest : option semver.Version) :
  Forall (fun entry =>
            is_Some (semver.NewVersion
                       (Str.TrimPrefix entry.1 (command +:+ "-")))) l ->
  exists h, scan command l highest = inr h.
Proof.
  intros Hl. revert highest.
  induction Hl as [|[name n] l [v Hv] _ IH]; intros highest; [by eexists|].
  cbn [scan fst] in *. destruct (IsDir n); [by apply IH|].
  destruct (negb _); [by apply IH|]. rewrite Hv.
  destruct highest as [h|]; [|by apply IH].
  destruct (semver.GreaterThan v h); by apply IH.
Qed.

(** On a disk that is a tree, a call of [link] for a command without
    a slash never returns the error that names an entry which does not
    parse.  Where such an entry is there, the directory is
    there, and [link] fails before it reads it; where [link] reads the
    directory, it has just made it. *)
Lemma link_never_names_an_entry (e : env) (w : world)
  (namespace command version sum name : string) :
  tree (files w) -> Str.lacks "/" command = true ->
  (link e w namespace command version sum).1 <> Return (Some (ErrNewerForm name)).
Proof.
  intros Ht Hl. unfold link.
  destruct (Path e namespace command version) as [pv|] eqn:HP.
  2:{ revert HP. unfold Path. repeat case_match; by intros [= <-]. }
  destruct (Mkdir (files w) (Dir pv)) as [fs1|] eqn:HM; [|done].
  cbn [files put].
  destruct (Symlink fs1 _ pv) as [fs2|] eqn:HS; [|done].
  destruct (isNewer e _ namespace command version) as [[ok err]|] eqn:HN; [|done].
  assert (forall nm, err <> Some (ErrNewerForm nm)) as Herr.
  { intros nm ->. revert HN. unfold isNewer. cbn [files put].
    destruct (semver.NewVersion version) as [v|] eqn:Hv; [|done].
    destruct (link_made_versioned_link e _ _ _ _ _ _ _ _ Hl
                (ex_intro _ v Hv) HP HM HS) as (l & -> & _ & Hall).
    destruct (scan_all_parse command l None) as [h ->];
      [|by destruct h].
    apply Forall_forall. intros [nm' n'] [Hold|[= -> ->]]%Hall; cbn [fst].
    - apply create_Ok in HM as (_ & Hfresh & Hne & _).
      by rewrite (tree_no_orphan _ _ _ Ht Hne Hfresh) in Hold.
    - rewrite <- str_app_assoc, TrimPrefix_app. eauto. }
  destruct (negb ok || bool_decide (is_Some err)).
  - cbn. intros [= ->]. by eapply Herr.
  - destruct (Path e namespace command "") as [pu|] eqn:HPu.
    + by destruct (Symlink fs2 _ pu).
    + revert HPu. unfold Path. repeat case_match; by intros [= <-].
Qed.

(** * Further properties *)

Import Notion.

(** ** The checks of [Get] and its options *)



Lemma foldl_update_true (options : list option_) (cfg : config) :
  package_options options -> update cfg = true ->
  update (foldl (fun cfg o => o cfg) cfg options) = true.
Proof.
  intros H. revert cfg. induction H as [|o l -> _ IH]; intros cfg Hc; [done|].
  cbn [foldl]. by apply IH.
Qed.

(** What the options of the package come to: [update] is set as soon
    as there is one. *)
Lemma newConfig_package_options (options : list option_) :
  package_options options ->
  update (newConfig options) = bool_decide (options <> []).
Proof.
  intros H. unfold newConfig. destruct H as [|o l -> H]; [done|].
  cbn [foldl]. by rewrite foldl_update_true.
Qed.

(** X2.  A call of [Get] with any option at all, its arguments being
    valid, fails with the error that the update is not implemented, and
    does nothing else. *)
Theorem Get_with_option_not_implemented (sha : string -> string) (e : env)
  (w : world) (namespace command version : string) (source : Source)
  (options : list option_) :
  namespace <> EmptyString -> command <> EmptyString ->
  is_Some (semver.NewVersion version) ->
  package_options options -> options <> [] ->
  Get sha e w namespace command version (Some source) options
    = (Return (None, Some ErrGetUpdate), w).
Proof.
  intros Hn Hc Hv Ho Hne. unfold Get.
  apply String.eqb_neq in Hn as ->. apply String.eqb_neq in Hc as ->.
  pose proof (NewVersion_nonempty _ Hv) as Hv'.
  apply String.eqb_neq in Hv' as ->.
  rewrite (bool_decide_eq_true_2 _ Hv). cbn [negb].
  rewrite (newConfig_package_options _ Ho).
  by rewrite bool_decide_eq_true_2.
Qed.

Lemma Get_with_option_not_implemented_witness :
  Get digest homeless fresh "myapp" "testbin" "v1.0.0" (Some plain_source)
    [WithUpdate; WithUpdate]
    = (Return (None, Some ErrGetUpdate), fresh).
Proof.
  apply Get_with_option_not_implemented; try discriminate.
  - eexists; reflexivity.
  - repeat constructor.
Defined.

(** ** [link] only adds *)

Lemma create_keeps_lookup (fs fs' : FS) (q p : path) (x n : node) :
  create fs q x = Ok fs' -> fs !! p = Some n -> fs' !! p = Some n.
Proof.
  intros (-> & Hq & _ & _)%create_Ok Hp.
  rewrite lookup_insert_ne; [done|]. congruence.
Qed.

(** X3.  Whatever [link] returns, and also when it panics, every entry
    that was on the disk is still there, unchanged: [link] only adds
    entries, it removes and repoints none.  It records no event. *)
Theorem link_only_adds (e : env) (w w' : world)
  (namespace command version sum : string) (r : outcome (option error))
  (p : path) (n : node) :
  link e w namespace command version sum = (r, w') ->
  files w !! p = Some n ->
  files w' !! p = Some n /\ events w' = events w.
Proof.
  intros HL Hp. revert HL. unfold link.
  destruct (Path e namespace command version) as [pv|]; [|by intros [= <- <-]].
  destruct (Mkdir (files w) (Dir pv)) as [fs1|] eqn:H1; [|by intros [= <- <-]].
  cbn [files put].
  pose proof (create_keeps_lookup _ _ _ _ _ _ H1 Hp) as Hp1.
  destruct (Symlink fs1 _ pv) as [fs2|] eqn:H2; [|by intros [= <- <-]].
  pose proof (create_keeps_lookup _ _ _ _ _ _ H2 Hp1) as Hp2.
  destruct (isNewer e _ namespace command version) as [[ok err]|];
    [|by intros [= <- <-]].
  destruct (negb ok || bool_decide (is_Some err)); [by intros [= <- <-]|].
  destruct (Path e namespace command "") as [pu|]; [|by intros [= <- <-]].
  destruct (Symlink fs2 _ pu) as [fs3|] eqn:H3; [|by intros [= <- <-]].
  intros [= <- <-]. split; [|done]. cbn [files put].
  by eapply create_keeps_lookup.
Qed.

Lemma link_only_adds_witness :
  files (link homeless after_other "myapp" "testbin" "v1.0.0"
           (digest "binary 1.0.0")).2
    !! ["work"; "binr"; "other"; "tool"]
    = Some (Link (entry (digest "binary 1.0.0"))) /\
  events (link homeless after_other "myapp" "testbin" "v1.0.0"
            (digest "binary 1.0.0")).2
    = events after_other.
Proof.
  eapply (link_only_adds homeless after_other _ "myapp" "testbin" "v1.0.0"
            (digest "binary 1.0.0")).
  - apply surjective_pairing.
  - vm_compute; reflexivity.
Defined.

(** ** The cleanup callback *)

Lemma Remove_Ok (fs fs' : FS) (p : path) :
  Remove fs p = Ok fs' -> fs' = delete p fs.
Proof.
  unfold Remove. destruct (Lstat fs p) as [[| |]|]; try discriminate.
  - by intros [= <-].
  - destruct p; [discriminate|]. destruct (entries fs _); [|discriminate].
    by intros [= <-].
  - by intros [= <-].
Qed.

(** X4.  The cleanup callback touches the temporary file and nothing
    else on the disk, whatever is there, and records that it was
    called. *)
Theorem run_done_touches_only_tmpfile (w : world) (tmpfile p : path) :
  p <> tmpfile ->
  files (run_done w tmpfile) !! p = files w !! p /\
  events (run_done w tmpfile) = events w ++ [Cleanup tmpfile].
Proof.
  intros Hp. unfold run_done. cbn [files emit].
  destruct (IsNotExist _); [done|].
  destruct (Remove (files w) tmpfile) as [fs|] eqn:HR; [|done].
  apply Remove_Ok in HR as ->. cbn [files events put].
  by rewrite lookup_delete_ne.
Qed.

Lemma run_done_touches_only_tmpfile_witness :
  files (run_done after_other tmp) !! ["work"; "binr"; ".cache"]
    = files after_other !! ["work"; "binr"; ".cache"] /\
  events (run_done after_other tmp) = events after_other ++ [Cleanup tmp].
Proof. apply run_done_touches_only_tmpfile. discriminate. Defined.

Lemma Lstat_delete_same (fs : FS) (p : path) (n : node) :
  Lstat fs p = Ok n -> p <> [] -> Lstat (delete p fs) p = Err ENOENT.
Proof.
  unfold Lstat. destruct p as [|c p]; [done|]. intros H _.
  destruct (dir_at fs (Dir (c :: p))) as [[]|] eqn:Hd; [|discriminate].
  assert (dir_at (delete (c :: p) fs) (Dir (c :: p)) = Ok tt) as ->.
  { revert Hd. unfold dir_at. destruct (Dir (c :: p)) as [|y d] eqn:HD; [done|].
    rewrite lookup_delete_ne; [done|].
    rewrite <- HD. intros Heq. by apply (Dir_neq (c :: p)). }
  by rewrite lookup_delete_eq.
Qed.

(** X5.  Where the temporary file is a regular file, the cleanup
    callback removes it, and it is gone afterwards. *)
Theorem run_done_removes_partial_file (w : world) (tmpfile : path) (c : string) :
  Lstat (files w) tmpfile = Ok (File c) ->
  files (run_done w tmpfile) = delete tmpfile (files w) /\
  Lstat (files (run_done w tmpfile)) tmpfile = Err ENOENT.
Proof.
  intros HL.
  assert (files (run_done w tmpfile) = delete tmpfile (files w)) as Heq.
  { unfold run_done, Stat, max_links. cbn [files emit resolve].
    rewrite HL. cbn [IsNotExist]. unfold Remove. by rewrite HL. }
  split; [done|]. rewrite Heq. eapply Lstat_delete_same; [done|].
  intros ->. discriminate HL.
Qed.

Lemma run_done_removes_partial_file_witness :
  let w := (get fresh "myapp" "testbin" "v1.0.0" wrong_source).2 in
  Lstat (files w) tmp = Ok (File "binary 1.0.0") /\
  files (run_done w tmp) = delete tmp (files w) /\
  Lstat (files (run_done w tmp)) tmp = Err ENOENT.
Proof.
  intros w.
  assert (Lstat (files w) tmp = Ok (File "binary 1.0.0")) as HL
    by (vm_compute; reflexivity).
  split; [exact HL|].
  exact (run_done_removes_partial_file w tmp _ HL).
Defined.

Lemma run_done_files (w : world) (tmpfile : path) :
  files (run_done w tmpfile)
    = if IsNotExist (Stat (files w) tmpfile) then files w
      else match Remove (files w) tmpfile with
           | Ok fs => fs
           | Err _ => files w
           end.
Proof.
  unfold run_done. cbn [files emit].
  destruct (IsNotExist _); [done|]. by destruct (Remove _ _).
Qed.

Lemma Stat_Lstat_Err (fs : FS) (p : path) (en : errno) :
  Lstat fs p = Err en -> Stat fs p = Err en.
Proof. intros H. unfold Stat, max_links. cbn [resolve]. by rewrite H. Qed.

(** X6.  Calling the cleanup callback a second time changes nothing on
    the disk, whatever the first call found and did. *)
Theorem run_done_twice (w : world) (tmpfile : path) :
  files (run_done (run_done w tmpfile) tmpfile) = files (run_done w tmpfile).
Proof.
  rewrite (run_done_files (run_done w tmpfile)).
  rewrite (run_done_files w).
  destruct (IsNotExist (Stat (files w) tmpfile)) eqn:HS; [by rewrite HS|].
  destruct (Remove (files w) tmpfile) as [fs|] eqn:HR; [|by rewrite HS, HR].
  pose proof (Remove_Ok _ _ _ HR) as ->.
  assert (Lstat (delete tmpfile (files w)) tmpfile = Err ENOENT) as HL.
  { revert HR. unfold Remove.
    destruct (Lstat (files w) tmpfile) as [n|] eqn:HL; [|discriminate].
    intros HR. eapply Lstat_delete_same; [done|]. intros ->.
    change (Ok Directory = Ok n) in HL. injection HL as Hn. subst n.
    discriminate HR. }
  by rewrite (Stat_Lstat_Err _ _ _ HL).
Qed.

(** ** [download] *)

(** X7.  When [download] returns no error, the server has answered the
    one request with status 200 and the expected content type, the body
    was read to its end, nothing could be reached at the output path
    before, and the file there now holds the body. *)
Theorem download_success (e : env) (w w' : world) (url : string)
  (outPath : path) (contentType : string) :
  download e w url outPath contentType = (None, w') ->
  exists r,
    http e url = Reply r /\
    StatusCode r = 200 /\ ContentType r = contentType /\ BodyErr r = false /\
    is_ok (Stat (files w) outPath) = false /\
    WriteFile (files w) outPath (Body r) = Ok (files w') /\
    ReadFile (files w') outPath = Ok (Body r) /\
    events w' = events w ++ [Request url].
Proof.
  unfold download. destruct (is_ok _) eqn:Hst; [discriminate|].
  destruct (http e url) as [| |r]; try discriminate.
  destruct (Nat.eqb (StatusCode r) 200) eqn:Hs; cbn [negb]; [|discriminate].
  destruct (String.eqb (ContentType r) contentType) eqn:Hc; cbn [negb];
    [|discriminate].
  cbn [files emit].
  destruct (WriteFile _ _ _) as [fs|] eqn:HW; [|discriminate].
  destruct (BodyErr r) eqn:Hb; [discriminate|]. intros [= <-].
  exists r. apply Nat.eqb_eq in Hs. apply String.eqb_eq in Hc.
  repeat split; try done. cbn [files put].
  exact (ReadFile_WriteFile _ _ _ _ HW).
Qed.

Lemma download_success_witness :
  let w' := {| files := <[tmp := File "binary 1.0.0"]> (files after_other);
               events := events after_other ++ [Request "http://dl/v1.0.0/testbin"] |} in
  exists r,
    http homeless "http://dl/v1.0.0/testbin" = Reply r /\
    StatusCode r = 200 /\ ContentType r = "application/octet-stream" /\
    BodyErr r = false /\
    is_ok (Stat (files after_other) tmp) = false /\
    WriteFile (files after_other) tmp (Body r) = Ok (files w') /\
    ReadFile (files w') tmp = Ok (Body r) /\
    events w' = events after_other ++ [Request "http://dl/v1.0.0/testbin"].
Proof.
  intros w'.
  apply (download_success homeless after_other w'
           "http://dl/v1.0.0/testbin" tmp "application/octet-stream").
  vm_compute; reflexivity.
Defined.

(** X8.  When [download] returns an error, the disk is as it was, but
    for the one error of copying the body: then the bytes received
    before the error are in the file at the output path.  Where
    something can be reached at the output path, or the request cannot
    be made, nothing is sent. *)
Theorem download_failure (e : env) (w w' : world) (url : string)
  (outPath : path) (contentType : string) (err : error) :
  download e w url outPath contentType = (Some err, w') ->
  (err <> ErrDownloadCopy -> files w' = files w) /\
  (err = ErrDownloadCopy ->
   exists r, http e url = Reply r /\ BodyErr r = true /\
             ReadFile (files w') outPath = Ok (Body r)) /\
  (is_ok (Stat (files w) outPath) = true ->
   err = ErrDownloadExists outPath /\ w' = w) /\
  (http e url = BadRequest -> w' = w).
Proof.
  unfold download. destruct (is_ok _) eqn:Hst.
  { intros [= <- <-]. repeat split; done. }
  destruct (http e url) as [| |r] eqn:Hr.
  - intros [= <- <-]. repeat split; done.
  - intros [= <- <-]. repeat split; done.
  - destruct (negb (Nat.eqb (StatusCode r) 200)).
    { intros [= <- <-]. repeat split; done. }
    destruct (negb (String.eqb (ContentType r) contentType)).
    { intros [= <- <-]. repeat split; done. }
    cbn [files emit].
    destruct (WriteFile _ _ _) as [fs|] eqn:HW.
    2:{ intros [= <- <-]. repeat split; done. }
    destruct (BodyErr r) eqn:Hb; [|discriminate].
    intros [= <- <-]. repeat split; try done.
    intros _. exists r. repeat split; try done.
    cbn [files put]. exact (ReadFile_WriteFile _ _ _ _ HW).
Qed.

Lemma download_failure_witness :
  (ErrDownloadExists (myapp ++ ["testbin"]) <> ErrDownloadCopy ->
   files after_v100 = files after_v100) /\
  (ErrDownloadExists (myapp ++ ["testbin"]) = ErrDownloadCopy ->
   exists r, http homeless "http://dl/v1.2.0/testbin" = Reply r /\
             BodyErr r = true /\
             ReadFile (files after_v100) (myapp ++ ["testbin"]) = Ok (Body r)) /\
  (is_ok (Stat (files after_v100) (myapp ++ ["testbin"])) = true ->
   ErrDownloadExists (myapp ++ ["testbin"])
     = ErrDownloadExists (myapp ++ ["testbin"]) /\ after_v100 = after_v100) /\
  (http homeless "http://dl/v1.2.0/testbin" = BadRequest -> after_v100 = after_v100).
Proof.
  apply (download_failure homeless after_v100 after_v100
           "http://dl/v1.2.0/testbin" (myapp ++ ["testbin"])
           "application/octet-stream").
  vm_compute; reflexivity.
Defined.

(** ** [getChecksum] *)

Lemma rev_snoc (c : ascii) (a : string) :
  String.rev (String c a) = String.rev a +:+ String c EmptyString.
Proof. unfold String.rev. cbn [String.rev_app]. apply rev_app_app. Qed.

Lemma rev_append (a b : string) :
  String.rev (a +:+ b) = String.rev b +:+ String.rev a.
Proof.
  induction a as [|c a IH].
  - change (EmptyString +:+ b) with b. by rewrite str_app_empty_r.
  - rewrite str_app_cons, !rev_snoc, IH. by rewrite str_app_assoc.
Qed.

Lemma rev_rev (a : string) : String.rev (String.rev a) = a.
Proof.
  induction a as [|c a IH]; [done|].
  rewrite rev_snoc, rev_append, IH. done.
Qed.

(** What [trim_left] leaves starts with no white space. *)
Lemma trim_left_head (s t : string) (c : ascii) :
  Str.trim_left s = String c t -> Str.is_space c = false.
Proof.
  induction s as [|x s IH]; cbn [Str.trim_left]; [discriminate|].
  destruct (Str.is_space x) eqn:Hx; [done|]. by intros [= <- _].
Qed.

Lemma trim_left_fixed (s : string) :
  (forall c t, s = String c t -> Str.is_space c = false) ->
  Str.trim_left s = s.
Proof.
  destruct s as [|c t]; [done|]. intros H. cbn [Str.trim_left].
  by rewrite (H c t eq_refl).
Qed.

Lemma trim_left_idemp (s : string) :
  Str.trim_left (Str.trim_left s) = Str.trim_left s.
Proof. apply trim_left_fixed. intros c t. apply trim_left_head. Qed.

(** [trim_left] takes a prefix away. *)
Lemma trim_left_suffix (s : string) :
  exists sp, s = sp +:+ Str.trim_left s.
Proof.
  induction s as [|x s [sp IH]]; [by exists EmptyString|].
  cbn [Str.trim_left]. destruct (Str.is_space x).
  - exists (String x sp). rewrite str_app_cons. by f_equal.
  - by exists EmptyString.
Qed.

(** What [strings.TrimSpace] returns has no white space at either
    end: trimming it again changes nothing. *)
Lemma TrimSpace_idemp (s : string) :
  Str.TrimSpace (Str.TrimSpace s) = Str.TrimSpace s.
Proof.
  unfold Str.TrimSpace.
  set (a := Str.trim_left s). set (b := Str.trim_left (String.rev a)).
  assert (Str.trim_left (String.rev b) = String.rev b) as ->.
  { apply trim_left_fixed. intros c t Hr.
    destruct (trim_left_suffix (String.rev a)) as [sp Hsp]. fold b in Hsp.
    apply (f_equal String.rev) in Hsp. rewrite rev_rev, rev_append, Hr in Hsp.
    rewrite str_app_cons in Hsp. exact (trim_left_head s _ c Hsp). }
  rewrite rev_rev. unfold b. by rewrite trim_left_idemp.
Qed.

(** X9.  [getChecksum] never touches the disk and sends at most the one
    request, none for the empty URL.  The checksum it returns has no
    white space at either end, and is empty whenever an error comes with
    it and for the empty URL, which is no error. *)
Theorem getChecksum_result (e : env) (w : world) (url : string) :
  let r := getChecksum e w url in
  files r.2 = files w /\
  (events r.2 = events w \/ events r.2 = events w ++ [Request url]) /\
  Str.TrimSpace r.1.1 = r.1.1 /\
  (is_Some r.1.2 -> r.1.1 = EmptyString) /\
  (url = EmptyString -> r = ((EmptyString, None), w)).
Proof.
  unfold getChecksum. destruct (String.eqb url "") eqn:Hu.
  { cbn. repeat split; eauto; try done; by intros [? ?]. }
  apply String.eqb_neq in Hu.
  destruct (http e url) as [| |r]; cbn [fst snd files events emit];
    [repeat split; eauto; done..|].
  destruct (negb (Nat.eqb (StatusCode r) 200));
    [cbn [fst snd files events emit]; repeat split; eauto; done|].
  destruct (BodyErr r); cbn [fst snd files events emit];
    [repeat split; eauto; done|].
  repeat split; eauto; try done; try (by intros [? ?]).
  apply TrimSpace_idemp.
Qed.

(** ** [setup] *)

Lemma Stat_root (fs : FS) : Stat fs [] = Ok Directory.
Proof. reflexivity. Qed.

Lemma Stat_Lstat_Directory (fs : FS) (p : path) :
  Lstat fs p = Ok Directory -> Stat fs p = Ok Directory.
Proof.
  intros H. unfold Stat, max_links. by rewrite (resolve_directory _ _ _ H).
Qed.

Lemma Mkdir_Ok (fs fs' : FS) (p : path) :
  Mkdir fs p = Ok fs' ->
  Stat fs' p = Ok Directory /\
  (forall q n, fs !! q = Some n -> fs' !! q = Some n).
Proof.
  intros H. split.
  - apply create_Ok in H as (-> & Hfresh & Hne & Hd).
    apply Stat_Lstat_Directory, Lstat_insert_same; eauto.
  - intros q n. by apply create_keeps_lookup with (1 := H).
Qed.

(** What [os.MkdirAll] leaves when it returns no error: a directory at
    the path, and all that was there before. *)
Lemma MkdirAll_Ok (fs fs' : FS) (p : path) :
  MkdirAll fs p = Ok fs' ->
  Stat fs' p = Ok Directory /\
  (forall q n, fs !! q = Some n -> fs' !! q = Some n).
Proof.
  unfold MkdirAll.
  set (step := fun (acc : result FS) (q : path) =>
                 match acc with
                 | Ok fs' =>
                     match Stat fs' q with
                     | Ok Directory => Ok fs'
                     | Ok _ => Err ENOTDIR
                     | Err ENOENT => Mkdir fs' q
                     | Err e => Err e
                     end
                 | Err e => Err e
                 end).
  assert (forall l en, foldl step (Err en) l = Err en) as HErr.
  { intros l en. induction l; [done|]. cbn [foldl]. exact IHl. }
  assert (forall p base fs0,
            foldl step (Ok fs0) (prefixes base p) = Ok fs' ->
            Stat fs0 base = Ok Directory ->
            Stat fs' (base ++ p) = Ok Directory /\
            (forall q n, fs0 !! q = Some n -> fs' !! q = Some n)) as Hgen.
  { clear p. intros p. induction p as [|c p IH]; intros base fs0.
    - cbn [prefixes foldl]. intros [= <-] Hb. by rewrite app_nil_r.
    - cbn [prefixes foldl]. unfold step at 2.
      replace (base ++ c :: p) with ((base ++ [c]) ++ p)
        by (by rewrite <- app_assoc).
      destruct (Stat fs0 (base ++ [c])) as [[| |]|en] eqn:Hq;
        try (by rewrite HErr).
      + intros H _. by apply IH.
      + destruct en; try (by rewrite HErr).
        destruct (Mkdir fs0 (base ++ [c])) as [fs1|] eqn:HM;
          [|by rewrite HErr].
        apply Mkdir_Ok in HM as [Hd Hkeep].
        intros H _. destruct (IH _ _ H Hd) as [? Hkeep']. split; [done|].
        intros q n Hqn. by apply Hkeep', Hkeep. }
  intros H. apply (Hgen p [] fs H). apply Stat_root.
Qed.

(** X10.  [setup] records no event and takes nothing from the disk.
    When it returns no error, the cache directory can be reached, and it
    is a directory where [setup] had to make it; when it returns an
    error, the world is as it was. *)
Theorem setup_result (e : env) (w : world) :
  let r := setup e w in
  events r.2 = events w /\
  (forall q n, files w !! q = Some n -> files r.2 !! q = Some n) /\
  (r.1 = None -> is_ok (Stat (files r.2) (cachePath e)) = true) /\
  (r.1 = None -> Stat (files w) (cachePath e) = Err ENOENT ->
   Stat (files r.2) (cachePath e) = Ok Directory) /\
  (is_Some r.1 -> r.2 = w).
Proof.
  unfold setup. destruct (Stat (files w) (cachePath e)) as [n|en] eqn:HS.
  { cbn [IsNotExist fst snd].
    repeat split; try done; try (by rewrite HS); try (by intros [? ?]). }
  destruct (IsNotExist (Err en)) eqn:HN.
  - destruct (MkdirAll (files w) (cachePath e)) as [fs|] eqn:HM.
    + apply MkdirAll_Ok in HM as [Hd Hkeep]. cbn [fst snd files events put].
      repeat split; try done; try (by rewrite Hd); try (by intros [? ?]).
    + cbn [fst snd]. repeat split; done.
  - cbn [fst snd]. repeat split; done.
Qed.

(** X11.  Once [setup] has returned no error, a second call returns no
    error and changes nothing. *)
Theorem setup_twice (e : env) (w w' : world) :
  setup e w = (None, w') -> setup e w' = (None, w').
Proof.
  intros H.
  assert (is_ok (Stat (files w') (cachePath e)) = true) as Hok.
  { revert H. unfold setup.
    destruct (Stat (files w) (cachePath e)) as [n|en] eqn:HS.
    - cbn. intros [= <-]. by rewrite HS.
    - destruct (IsNotExist (Err en)); [|discriminate].
      destruct (MkdirAll (files w) (cachePath e)) as [fs|] eqn:HM; [|discriminate].
      intros [= <-]. apply MkdirAll_Ok in HM as [Hd _]. cbn. by rewrite Hd. }
  unfold setup. by destruct (Stat (files w') (cachePath e)).
Qed.

Lemma setup_twice_witness :
  let w' := {| files := <[["work"; "binr"; ".cache"] := Directory]>
                          (<[["work"; "binr"] := Directory]> (files fresh));
               events := [] |} in
  setup homeless fresh = (None, w') /\ setup homeless w' = (None, w').
Proof.
  intros w'.
  assert (setup homeless fresh = (None, w')) as H by (vm_compute; reflexivity).
  split; [exact H|]. exact (setup_twice homeless fresh w' H).
Defined.

(** ** [Path] *)


Lemma plain_split (c : string) : plain c -> Str.split "/" c = [c].
Proof. intros (H & _). by apply split_lacks. Qed.

(** The unversioned path of a plain command: the directory of the
    namespace and the command in it. *)
Lemma Path_unversioned (e : env) (namespace command : string) :
  namespace <> EmptyString -> plain command ->
  Path e namespace command EmptyString
    = OK (Abs (Getwd e) (Join [dotfilesPath e; $"binr"; $namespace]) ++ [command]).
Proof.
  intros Hn (Hl & H1 & H2 & H3). unfold Path.
  apply String.eqb_neq in Hn as ->. pose proof H1 as H1'.
  apply String.eqb_neq in H1' as ->. cbn. f_equal.
  apply (Abs_Join_snoc _ [dotfilesPath e; $"binr"; $namespace]); try done.
  - by apply split_lacks.
  - rewrite filter_cons. case_decide; [done|].
    by rewrite filter_cons, decide_True.
Qed.

Lemma append_longer (a b : string) : b <> EmptyString -> a +:+ b <> a.
Proof.
  intros Hb H. induction a as [|c a IH]; [done|].
  rewrite str_app_cons in H. injection H as H. by apply IH.
Qed.

(** X13.  For a plain command, the paths of two versions are the same
    only if the versions are, the empty version of the unversioned link
    among them: no two links of a command share a path. *)
Theorem Path_version_injective (e : env) (namespace command v1 v2 : string)
  (p : path) :
  plain command ->
  Path e namespace command v1 = OK p ->
  Path e namespace command v2 = OK p ->
  v1 = v2.
Proof.
  intros Hplain HP1 HP2.
  destruct (Path_OK_nonempty _ _ _ _ _ HP1) as [Hn Hc].
  assert (forall v q, Path e namespace command v = OK q ->
            q = Abs (Getwd e) (Join [dotfilesPath e; $"binr"; $namespace])
                  ++ [if String.eqb v "" then command
                      else command +:+ "-" +:+ v]) as Hshape.
  { intros v q Hq. destruct (String.eqb v "") eqn:Hv.
    - apply String.eqb_eq in Hv as ->.
      rewrite (Path_unversioned e _ _ Hn Hplain) in Hq. by injection Hq.
    - assert (is_Some (semver.NewVersion v)) as HV.
      { revert Hq. unfold Path.
        apply String.eqb_neq in Hn as ->. apply String.eqb_neq in Hc as ->.
        rewrite Hv. cbn [negb]. destruct (semver.NewVersion v); [eauto|done]. }
      rewrite (Path_versioned e _ _ _ Hn Hc (proj1 Hplain) HV) in Hq.
      by injection Hq. }
  pose proof (Hshape _ _ HP1) as H1. pose proof (Hshape _ _ HP2) as H2.
  rewrite H1 in H2. apply app_inj_tail in H2 as [_ H2].
  destruct (String.eqb v1 "") eqn:E1, (String.eqb v2 "") eqn:E2.
  - apply String.eqb_eq in E1, E2. congruence.
  - exfalso. symmetry in H2. by apply append_longer in H2.
  - exfalso. by apply append_longer in H2.
  - apply String.app_inj in H2. by injection H2.
Qed.

Lemma Path_version_injective_witness :
  Path homeless "myapp" "mybin" "v1.0.0"
    = OK ["work"; "binr"; "myapp"; "mybin-v1.0.0"] /\
  "v1.0.0" = "v1.0.0".
Proof.
  assert (Path homeless "myapp" "mybin" "v1.0.0"
          = OK ["work"; "binr"; "myapp"; "mybin-v1.0.0"]) as H by reflexivity.
  split; [exact H|].
  apply (Path_version_injective homeless "myapp" "mybin" "v1.0.0" "v1.0.0"
           ["work"; "binr"; "myapp"; "mybin-v1.0.0"]); [|exact H|exact H].
  repeat split; done.
Defined.

(** ** The base directory *)

Lemma filter_kept_app (a b : list string) :
  filter kept (a ++ b) = filter kept a ++ filter kept b.
Proof. apply filter_app. Qed.

(** [filepath.Join] and [filepath.Abs] from an absolute first element,
    with no [".."] anywhere: the components that are kept, in their
    order; the working directory plays no part. *)
Lemma Abs_Join_rooted (cwd : path) (d : gopath) (namespace name : string) :
  rooted d = true -> namespace <> EmptyString -> name <> EmptyString ->
  ".." ∉ comps d -> ".." ∉ Str.split "/" namespace ->
  ".." ∉ Str.split "/" name ->
  Abs cwd (Join [d; $"binr"; $namespace; $name])
    = filter kept (comps d) ++ "binr"
        :: filter kept (Str.split "/" namespace ++ Str.split "/" name).
Proof.
  intros Hr Hn Hc Hd Hdn Hdc. unfold Join. rewrite !filter_cons.
  rewrite (decide_True (P := Is_true (negb (is_empty d))))
    by (unfold is_empty; by rewrite Hr).
  rewrite (decide_True (P := Is_true (negb (is_empty $"binr")))) by done.
  rewrite (decide_True (P := Is_true (negb (is_empty $namespace))))
    by (by rewrite is_empty_of_string).
  rewrite (decide_True (P := Is_true (negb (is_empty $name))))
    by (by rewrite is_empty_of_string).
  rewrite filter_nil.
  change (flat_map comps [d; $"binr"; $namespace; $name])
    with (comps d ++ "binr" :: (Str.split "/" namespace ++ Str.split "/" name ++ [])).
  rewrite app_nil_r.
  set (cs := comps d ++ "binr" :: Str.split "/" namespace ++ Str.split "/" name).
  assert (".." ∉ cs) as Hcs.
  { unfold cs. intros [?|[?|[?|?]%elem_of_app]%elem_of_cons]%elem_of_app; done. }
  unfold Abs, Clean. cbn [rooted comps]. rewrite Hr.
  rewrite (clean_go_no_dotdot true [] cs) by done. cbn [app].
  rewrite (clean_go_no_dotdot true []) by (by apply filter_kept_no_dotdot).
  cbn [app]. rewrite filter_kept_idemp. unfold cs.
  rewrite filter_kept_app, (filter_cons kept "binr").
  by rewrite decide_True.
Qed.

Lemma HasPrefix_nonempty (s pre : string) :
  pre <> EmptyString -> Str.HasPrefix s pre = true -> s <> EmptyString.
Proof. intros Hp H ->. by destruct pre. Qed.

Lemma Path_from_dotfiles (e : env) (namespace command version : string) :
  namespace <> EmptyString -> command <> EmptyString ->
  version = EmptyString \/ is_Some (semver.NewVersion version) ->
  Path e namespace command version
    = OK (Abs (Getwd e)
            (Join [dotfilesPath e; $"binr"; $namespace;
                   $(if String.eqb version "" then command
                     else command +:+ "-" +:+ version)])).
Proof.
  intros Hn Hc Hv. unfold Path.
  apply String.eqb_neq in Hn as ->. apply String.eqb_neq in Hc as ->.
  destruct (String.eqb version "") eqn:Hve; [done|]. cbn [negb].
  destruct Hv as [->|[x ->]]; done.
Qed.

(** X14.  With [XDG_CONFIG_HOME] set to an absolute path, [Path] is under
    that path, whatever the home directory and the working directory
    are: the components of the variable, [binr], and those of the
    namespace and of the name of the link (none being [".."]). *)
Theorem Path_with_xdg (e : env) (namespace command version : string) :
  let name :=
    if String.eqb version "" then command else command +:+ "-" +:+ version in
  Str.HasPrefix (XDG_CONFIG_HOME e) "/" = true ->
  namespace <> EmptyString -> command <> EmptyString ->
  version = EmptyString \/ is_Some (semver.NewVersion version) ->
  ".." ∉ Str.split "/" (XDG_CONFIG_HOME e) ->
  ".." ∉ Str.split "/" namespace -> ".." ∉ Str.split "/" name ->
  Path e namespace command version
    = OK (filter kept (Str.split "/" (XDG_CONFIG_HOME e)) ++ "binr"
            :: filter kept (Str.split "/" namespace ++ Str.split "/" name)).
Proof.
  intros name Hx Hn Hc Hv Hdx Hdn Hdc.
  rewrite (Path_from_dotfiles e _ _ _ Hn Hc Hv). fold name. f_equal.
  assert (XDG_CONFIG_HOME e <> EmptyString) as Hxne
    by (apply (HasPrefix_nonempty _ "/"); [discriminate|exact Hx]).
  assert (dotfilesPath e = $(XDG_CONFIG_HOME e)) as ->.
  { unfold dotfilesPath. apply String.eqb_neq in Hxne as ->.
    by rewrite andb_false_r. }
  apply Abs_Join_rooted; try done.
  unfold name. destruct (String.eqb version ""); [done|].
  by apply append_nonempty.
Qed.

(** A string is not among the strings of a list that is given. *)
Ltac not_among :=
  let H := fresh "H" in
  intros H; cbv in H;
  repeat (apply elem_of_cons in H as [H|H]; [discriminate H|]);
  by apply elem_of_nil in H.

Lemma Path_with_xdg_witness :
  Path (test_env "/users/alice" "/users/alice/.xdg_config") "myapp" "mybin" "v1.0.0"
    = OK ["users"; "alice"; ".xdg_config"; "binr"; "myapp"; "mybin-v1.0.0"].
Proof.
  apply (Path_with_xdg (test_env "/users/alice" "/users/alice/.xdg_config")
           "myapp" "mybin" "v1.0.0"); try reflexivity; try discriminate;
    try not_among.
  right. eexists. reflexivity.
Defined.

(** The directory [~/.config] of an absolute home directory. *)
Lemma dotfilesPath_home (e : env) (home : string) :
  UserHomeDir e = Some home -> XDG_CONFIG_HOME e = EmptyString ->
  Str.HasPrefix home "/" = true -> ".." ∉ Str.split "/" home ->
  dotfilesPath e = mkPath true (filter kept (Str.split "/" home) ++ [".config"]).
Proof.
  intros Hh Hx Hr Hd. unfold dotfilesPath. rewrite Hh, Hx.
  change (default EmptyString (Some home)) with home.
  rewrite bool_decide_eq_true_2 by eauto. cbn [negb andb String.eqb].
  unfold Join. rewrite !filter_cons.
  rewrite (decide_True (P := Is_true (negb (is_empty $home))))
    by (unfold is_empty, of_string; cbn [rooted]; by rewrite Hr).
  rewrite (decide_True (P := Is_true (negb (is_empty $".config")))) by done.
  rewrite filter_nil.
  change (flat_map comps [$home; $".config"])
    with (Str.split "/" home ++ [".config"]).
  unfold Clean. cbn [rooted comps of_string]. rewrite Hr. f_equal.
  rewrite clean_go_no_dotdot.
  - cbn [app]. rewrite filter_kept_app. by rewrite (filter_cons kept ".config").
  - intros [?|?%list_elem_of_singleton]%elem_of_app; done.
Qed.

(** X15.  With an absolute home directory and no [XDG_CONFIG_HOME],
    [Path] is under [.config] in the home directory, whatever the working
    directory is. *)
Theorem Path_with_home (e : env) (home namespace command version : string) :
  let name :=
    if String.eqb version "" then command else command +:+ "-" +:+ version in
  UserHomeDir e = Some home -> XDG_CONFIG_HOME e = EmptyString ->
  Str.HasPrefix home "/" = true ->
  namespace <> EmptyString -> command <> EmptyString ->
  version = EmptyString \/ is_Some (semver.NewVersion version) ->
  ".." ∉ Str.split "/" home ->
  ".." ∉ Str.split "/" namespace -> ".." ∉ Str.split "/" name ->
  Path e namespace command version
    = OK (filter kept (Str.split "/" home) ++ ".config" :: "binr"
            :: filter kept (Str.split "/" namespace ++ Str.split "/" name)).
Proof.
  intros name Hh Hx Hr Hn Hc Hv Hdh Hdn Hdc.
  rewrite (Path_from_dotfiles e _ _ _ Hn Hc Hv). fold name. f_equal.
  rewrite (dotfilesPath_home e home Hh Hx Hr Hdh).
  rewrite Abs_Join_rooted; try done.
  - cbn [comps]. rewrite filter_kept_app, filter_kept_idemp.
    rewrite (filter_cons kept ".config"), decide_True by done.
    by rewrite <- app_assoc.
  - unfold name. destruct (String.eqb version ""); [done|].
    by apply append_nonempty.
  - cbn [comps]. intros [?%filter_kept_no_dotdot|?%list_elem_of_singleton]%elem_of_app;
      done.
Qed.

Lemma Path_with_home_witness :
  Path (test_env "/users/alice" "") "myapp" "mybin" "v1.0.0"
    = OK ["users"; "alice"; ".config"; "binr"; "myapp"; "mybin-v1.0.0"].
Proof.
  apply (Path_with_home (test_env "/users/alice" "") "/users/alice"
           "myapp" "mybin" "v1.0.0"); try reflexivity; try discriminate;
    try not_among.
  right. eexists. reflexivity.
Defined.

(** ** The links and the store *)

(** The path of a link of a plain command: the directory of the
    namespace and the name of the link in it. *)
Lemma Path_shape (e : env) (namespace command version : string) (p : path) :
  plain command ->
  Path e namespace command version = OK p ->
  p = Abs (Getwd e) (Join [dotfilesPath e; $"binr"; $namespace])
        ++ [if String.eqb version "" then command
            else command +:+ "-" +:+ version].
Proof.
  intros Hplain Hq.
  destruct (Path_OK_nonempty _ _ _ _ _ Hq) as [Hn Hc].
  destruct (String.eqb version "") eqn:Hv.
  - apply String.eqb_eq in Hv as ->.
    rewrite (Path_unversioned e _ _ Hn Hplain) in Hq. by injection Hq.
  - assert (is_Some (semver.NewVersion version)) as HV.
    { revert Hq. unfold Path.
      apply String.eqb_neq in Hn as ->. apply String.eqb_neq in Hc as ->.
      rewrite Hv. cbn [negb]. destruct (semver.NewVersion version); [eauto|done]. }
    rewrite (Path_versioned e _ _ _ Hn Hc (proj1 Hplain) HV) in Hq.
    by injection Hq.
Qed.

Lemma plain_nonempty_elem (c : string) : plain c -> is_empty $c = false.
Proof. intros (_ & H & _). by apply is_empty_of_string. Qed.

(** The directory of a plain namespace and the cache directory are
    side by side. *)
Lemma namespace_beside_cache (e : env) (namespace : string) :
  plain namespace ->
  exists base,
    Abs (Getwd e) (Join [dotfilesPath e; $"binr"; $namespace]) = base ++ [namespace] /\
    cachePath e = base ++ [".cache"].
Proof.
  intros (Hl & H1 & H2 & H3).
  exists (Abs (Getwd e) (Join [dotfilesPath e; $"binr"])).
  assert (filter (fun e0 => negb (is_empty e0)) [dotfilesPath e; $"binr"] <> [])
    as Hne.
  { rewrite filter_cons. case_decide; [done|].
    by rewrite filter_cons, decide_True. }
  split.
  - apply (Abs_Join_snoc _ [dotfilesPath e; $"binr"]); try done.
    by apply split_lacks.
  - unfold cachePath.
    by apply (Abs_Join_snoc _ [dotfilesPath e; $"binr"] ".cache").
Qed.

(** The target that [link] gives its links, for a plain digest. *)
Lemma link_target (sum : string) :
  plain sum ->
  Join [$".."; $".cache"; $sum] = mkPath false [".."; ".cache"; sum].
Proof.
  intros Hp. pose proof (plain_split _ Hp) as Hsp.
  destruct Hp as (Hl & H1 & H2 & H3).
  unfold Join. rewrite !filter_cons.
  rewrite (decide_True (P := Is_true (negb (is_empty $"..")))) by done.
  rewrite (decide_True (P := Is_true (negb (is_empty $".cache")))) by done.
  rewrite (decide_True (P := Is_true (negb (is_empty $sum))))
    by (by rewrite is_empty_of_string).
  rewrite filter_nil.
  change (flat_map comps [$".."; $".cache"; $sum])
    with ([".."; ".cache"] ++ Str.split "/" sum ++ []).
  rewrite Hsp. unfold Clean. cbn [rooted comps of_string app]. f_equal.
  change [".."; ".cache"; sum] with ([".."; ".cache"] ++ [sum]) at 1.
  by rewrite clean_go_snoc.
Qed.

Lemma clean_go_pop (root : bool) (st : list string) (top : string) :
  top <> ".." -> clean_go root (st ++ [top]) [".."] = st.
Proof.
  intros H. unfold clean_go.
  change (String.eqb ".." "" || String.eqb ".." ".") with false.
  change (String.eqb ".." "..") with true. cbv iota.
  rewrite last_snoc. apply String.eqb_neq in H as ->.
  by rewrite removelast_last.
Qed.

Lemma filter_kept_plain (c : string) : plain c -> filter kept [c] = [c].
Proof.
  intros (_ & H1 & H2 & _). rewrite filter_cons, decide_True; [done|].
  unfold kept. apply String.eqb_neq in H1 as ->.
  by apply String.eqb_neq in H2 as ->.
Qed.

(** From the directory of a plain namespace, [../.cache/<digest>] is
    the entry of the digest in the cache directory. *)
Lemma link_dest_beside_cache (e : env)
  (namespace command version sum : string) (p : path) :
  plain namespace -> plain command -> plain sum ->
  Path e namespace command version = OK p ->
  link_dest p (Join [$".."; $".cache"; $sum]) = JoinAbs (cachePath e) [$sum].
Proof.
  intros Hn Hc Hs HP.
  rewrite (Path_shape e _ _ _ _ Hc HP).
  destruct (namespace_beside_cache e namespace Hn) as (base & -> & ->).
  rewrite (link_target _ Hs).
  unfold link_dest, Dir. rewrite removelast_last.
  unfold Abs, JoinAbs. cbn [rooted comps].
  rewrite filter_cons, decide_True by (by rewrite plain_nonempty_elem).
  rewrite filter_nil. cbn [flat_map comps of_string]. rewrite app_nil_r.
  rewrite (plain_split _ Hs).
  destruct Hn as (_ & _ & _ & Hnn).
  change [".."; ".cache"; sum] with ([".."] ++ [".cache"; sum]).
  rewrite clean_go_app, (clean_go_pop _ _ _ Hnn).
  destruct Hs as (_ & Hs1 & Hs2 & Hs3).
  change [".cache"; sum] with ([".cache"] ++ [sum]).
  rewrite clean_go_snoc by done.
  rewrite (clean_go_push true base ".cache") by done.
  by rewrite (clean_go_push true _ sum).
Qed.

(** X16.  For a plain namespace, command and digest, the target
    [../.cache/<digest>] that [link] gives to the link of any version,
    read from where that link is, is the entry of the digest in the
    cache directory: the links of every namespace lead into the one
    store. *)
Theorem link_target_is_cache_entry (e : env)
  (namespace command version sum : string) (p : path) :
  plain namespace -> plain command -> plain sum ->
  Path e namespace command version = OK p ->
  link_dest p (Join [$".."; $".cache"; $sum]) = JoinAbs (cachePath e) [$sum].
Proof. apply link_dest_beside_cache. Qed.

Lemma link_target_is_cache_entry_witness :
  link_dest ["work"; "binr"; "myapp"; "testbin-v1.0.0"]
    (Join [$".."; $".cache"; $"abc"])
    = JoinAbs (cachePath homeless) [$"abc"].
Proof.
  apply (link_target_is_cache_entry homeless "myapp" "testbin" "v1.0.0" "abc");
    try (repeat split; done).
Defined.

(** ** What a call of [link] that returns no error leaves *)

Lemma compareSegment_refl (x : Z) : semver.compareSegment x x = 0%Z.
Proof. unfold semver.compareSegment. by rewrite Z.ltb_irrefl. Qed.

Lemma comparePrePart_refl (s : string) : semver.comparePrePart s s = 0%Z.
Proof. unfold semver.comparePrePart. by rewrite String.eqb_refl. Qed.

Lemma compareParts_refl (n : nat) (l : list string) :
  semver.compareParts n l l = 0%Z.
Proof.
  revert l. induction n as [|n IH]; intros l; [done|].
  cbn [semver.compareParts]. rewrite comparePrePart_refl. cbn. apply IH.
Qed.

(** No version is greater than itself. *)
Lemma GreaterThan_irrefl (v : semver.Version) : semver.GreaterThan v v = false.
Proof.
  unfold semver.GreaterThan, semver.Compare.
  rewrite !compareSegment_refl. cbn [Z.eqb negb].
  destruct (String.eqb (semver.pre v) ""); cbn [andb]; [done|].
  unfold semver.comparePrerelease. by rewrite compareParts_refl.
Qed.

(** The loop over entries that are all one link. *)
Lemma scan_one_link (command : string) (entry : string * node)
  (v : semver.Version) (l : list (string * node)) :
  relevant command entry = true -> version_of command entry = Some v ->
  Forall (fun x => x = entry) l ->
  scan command l (Some v) = inr (Some v) /\
  (l <> [] -> scan command l None = inr (Some v)).
Proof.
  intros [Hd Hp]%andb_true_iff Hv Hl. apply negb_true_iff in Hd.
  destruct entry as [name n]. cbn [fst snd] in *. unfold version_of in Hv.
  cbn [fst] in Hv.
  induction Hl as [|x l -> _ [IH1 IH2]]; [done|].
  cbn [scan]. rewrite Hd, Hp, Hv. cbn [negb].
  rewrite GreaterThan_irrefl. done.
Qed.

(** Right after [link] has made the directory of the namespace and the
    versioned link in it, on a disk that is a tree, [isNewer] finds that
    link and no other, and returns true. *)
Lemma isNewer_after_fresh_link (e : env) (w : world) (fs fs1 : FS)
  (namespace command version : string) (pv : path) (target : gopath) :
  tree fs -> Str.lacks "/" command = true ->
  is_Some (semver.NewVersion version) ->
  Path e namespace command version = OK pv ->
  Mkdir fs (Dir pv) = Ok fs1 ->
  Symlink fs1 target pv = Ok (files w) ->
  isNewer e w namespace command version = Return (true, None).
Proof.
  intros Ht Hl Hv HP HM HS.
  destruct (link_made_versioned_link e _ _ _ _ _ _ _ _ Hl Hv HP HM HS)
    as (l & HR & Hin & Hall).
  destruct Hv as [v Hv]. unfold isNewer. rewrite Hv, HR.
  set (new := (command +:+ "-" +:+ version, Link target)) in *.
  assert (Forall (fun x => x = new) l) as HF.
  { apply Forall_forall. intros [nm n] [Hold|Heq]%Hall; [|done].
    apply create_Ok in HM as (_ & Hfresh & Hne & _).
    by rewrite (tree_no_orphan _ _ _ Ht Hne Hfresh) in Hold. }
  assert (relevant command new = true) as Hrel.
  { unfold relevant, new. cbn [fst snd IsDir negb andb].
    rewrite <- str_app_assoc. apply HasPrefix_app. }
  assert (version_of command new = Some v) as Hver.
  { unfold version_of, new. cbn [fst].
    by rewrite <- str_app_assoc, TrimPrefix_app. }
  destruct (scan_one_link command new v l Hrel Hver HF) as [_ ->].
  - by rewrite GreaterThan_irrefl.
  - intros ->. by apply elem_of_nil in Hin.
Qed.

(** On a disk that is a tree, what a call of [link] that returns no
    error has done for a command without a slash: it has made the
    directory of the namespace, the versioned link and the unversioned
    link, in this order, each at a place where nothing was. *)
Lemma link_Return_None (e : env) (w w' : world)
  (namespace command version sum : string) :
  tree (files w) -> Str.lacks "/" command = true ->
  link e w namespace command version sum = (Return None, w') ->
  exists pv pu fs1 fs2,
    Path e namespace command version = OK pv /\
    Path e namespace command EmptyString = OK pu /\
    is_Some (semver.NewVersion version) /\
    Mkdir (files w) (Dir pv) = Ok fs1 /\
    Symlink fs1 (Join [$".."; $".cache"; $sum]) pv = Ok fs2 /\
    Symlink fs2 (Join [$".."; $".cache"; $sum]) pu = Ok (files w') /\
    events w' = events w.
Proof.
  intros Ht Hl. unfold link.
  destruct (Path e namespace command version) as [pv|] eqn:HP; [|done].
  destruct (Mkdir (files w) (Dir pv)) as [fs1|] eqn:HM; [|done].
  cbn [files put].
  destruct (Symlink fs1 _ pv) as [fs2|] eqn:HS; [|done].
  destruct (semver.NewVersion version) as [v|] eqn:Hv.
  2:{ unfold isNewer. rewrite Hv. cbn. done. }
  rewrite (isNewer_after_fresh_link e (put (put w fs1) fs2) (files w) fs1
             _ _ _ pv _ Ht Hl (ex_intro _ v Hv) HP HM HS).
  cbn [negb orb]. rewrite bool_decide_eq_false_2 by (by intros [? ?]).
  destruct (Path e namespace command "") as [pu|] eqn:HPu; [|done].
  destruct (Symlink fs2 _ pu) as [fs3|] eqn:HSu; [|done].
  intros [= <-]. exists pv, pu, fs1, fs2. repeat split; eauto.
Qed.

Lemma resolve_link (fuel : nat) (fs : FS) (p : path) (t : gopath) :
  Lstat fs p = Ok (Link t) ->
  resolve (S fuel) fs p = resolve fuel fs (link_dest p t).
Proof. intros H. cbn [resolve]. by rewrite H. Qed.

Lemma resolve_file (fuel : nat) (fs : FS) (p : path) (c : string) :
  Lstat fs p = Ok (File c) -> resolve (S fuel) fs p = Ok (p, File c).
Proof. intros H. cbn [resolve]. by rewrite H. Qed.

(** A link whose target leads to a file leads to that file. *)
Lemma Stat_through_link (fs : FS) (p q : path) (t : gopath) (c : string) :
  Lstat fs p = Ok (Link t) -> link_dest p t = q ->
  Lstat fs q = Ok (File c) -> Stat fs p = Ok (File c).
Proof.
  intros Hp Hq Hf. unfold Stat, max_links.
  rewrite (resolve_link _ _ _ _ Hp), Hq.
  by rewrite (resolve_file _ _ _ _ Hf).
Qed.

Lemma create_Lstat (fs fs' : FS) (p : path) (n : node) :
  create fs p n = Ok fs' -> Lstat fs' p = Ok n.
Proof.
  intros (-> & Hfresh & Hne & Hd)%create_Ok.
  apply Lstat_insert_same; eauto.
Qed.

(** X17.  On a disk that is a tree, for a plain namespace, command and
    digest whose entry in the cache directory is a regular file: when
    [link] returns no error, the versioned path and the unversioned path
    both lead to that file. *)
Theorem link_makes_both_paths_lead_to_entry (e : env) (w w' : world)
  (namespace command version sum c : string) :
  tree (files w) -> plain namespace -> plain command -> plain sum ->
  Lstat (files w) (JoinAbs (cachePath e) [$sum]) = Ok (File c) ->
  link e w namespace command version sum = (Return None, w') ->
  exists pv pu,
    Path e namespace command version = OK pv /\
    Path e namespace command EmptyString = OK pu /\
    Stat (files w') pv = Ok (File c) /\
    Stat (files w') pu = Ok (File c).
Proof.
  intros Ht Hn Hc Hs Hentry HL.
  destruct (link_Return_None _ _ _ _ _ _ _ Ht (proj1 Hc) HL)
    as (pv & pu & fs1 & fs2 & HP & HPu & _ & HM & HS & HSu & _).
  exists pv, pu. split; [done|]. split; [done|].
  pose proof (link_dest_beside_cache e _ _ _ _ _ Hn Hc Hs HP) as Hdv.
  pose proof (link_dest_beside_cache e _ _ _ _ _ Hn Hc Hs HPu) as Hdu.
  assert (Lstat (files w') (JoinAbs (cachePath e) [$sum]) = Ok (File c)) as He.
  { eapply create_keeps; [exact HSu|]. eapply create_keeps; [exact HS|].
    eapply create_keeps; [exact HM|]. exact Hentry. }
  split.
  - eapply Stat_through_link; [|exact Hdv|exact He].
    eapply create_keeps; [exact HSu|]. by eapply create_Lstat.
  - eapply Stat_through_link; [|exact Hdu|exact He].
    by eapply create_Lstat.
Qed.

(** The disk after the first call of [Get] of the concrete setting is a
    tree. *)
Lemma after_other_tree : tree (files after_other).
Proof.
  intros p n Hp. apply elem_of_map_to_list in Hp. vm_compute in Hp.
  repeat (apply elem_of_cons in Hp as [Hp|Hp];
          [injection Hp as -> ->; vm_compute; reflexivity|]).
  by apply elem_of_nil in Hp.
Qed.

Lemma link_makes_both_paths_lead_to_entry_witness :
  let w' := (link homeless after_other "myapp" "testbin" "v1.0.0"
               "sha256:binary 1.0.0").2 in
  exists pv pu,
    Path homeless "myapp" "testbin" "v1.0.0" = OK pv /\
    Path homeless "myapp" "testbin" EmptyString = OK pu /\
    Stat (files w') pv = Ok (File "binary 1.0.0") /\
    Stat (files w') pu = Ok (File "binary 1.0.0").
Proof.
  intros w'.
  apply (link_makes_both_paths_lead_to_entry homeless after_other w'
           "myapp" "testbin" "v1.0.0" "sha256:binary 1.0.0" "binary 1.0.0").
  - exact after_other_tree.
  - repeat split; done.
  - repeat split; done.
  - repeat split; done.
  - vm_compute; reflexivity.
  - vm_compute; reflexivity.
Defined.

(** ** [cache] stores under the digest *)

Lemma WriteFile_absent (fs fs' : FS) (p : path) (c : string) :
  Lstat fs p = Err ENOENT -> WriteFile fs p c = Ok fs' ->
  fs' = <[p := File c]> fs /\ fs !! p = None /\ p <> [] /\
  dir_at fs (Dir p) = Ok tt /\ Lstat fs' p = Ok (File c).
Proof.
  intros HL. unfold WriteFile, max_links. cbn [write_at]. rewrite HL.
  destruct (dir_at fs (Dir p)) as [[]|] eqn:Hd; [|discriminate].
  intros [= <-].
  assert (p <> [] /\ fs !! p = None) as [Hne Hnone].
  { revert HL. unfold Lstat. destruct p as [|x p]; [discriminate|].
    rewrite Hd. by destruct (fs !! (x :: p)). }
  repeat split; try done. apply Lstat_insert_same; eauto.
Qed.

(** What [os.Rename] of a regular file leaves. *)
Lemma Rename_file (fs fs' : FS) (old new : path) (c : string) :
  Lstat fs old = Ok (File c) -> Rename fs old new = Ok fs' ->
  fs' = <[new := File c]> (delete old fs) /\
  Lstat fs' new = Ok (File c) /\
  (new <> old -> fs' !! old = None).
Proof.
  intros Hold. unfold Rename. rewrite Hold.
  assert (fs !! old = Some (File c)) as Hlo.
  { destruct (Lstat_Ok _ _ _ Hold) as [Heq|?]; [|done].
    rewrite Heq in Hold. discriminate Hold. }
  assert (dir_at fs (Dir new) = Ok tt -> new <> [] ->
          Lstat (<[new := File c]> (delete old fs)) new = Ok (File c)) as Hnew.
  { intros Hd Hne. unfold Lstat. destruct new as [|x new]; [done|].
    assert (dir_at (<[x :: new := File c]> (delete old fs)) (Dir (x :: new))
            = Ok tt) as ->.
    { revert Hd. unfold dir_at. destruct (Dir (x :: new)) as [|y d] eqn:HD; [done|].
      destruct (fs !! (y :: d)) as [[]|] eqn:Hl; try discriminate. intros _.
      rewrite lookup_insert_ne
        by (rewrite <- HD; intros Heq; by apply (Dir_neq (x :: new))).
      rewrite lookup_delete_ne by congruence. by rewrite Hl. }
    by rewrite lookup_insert_eq. }
  destruct (Lstat fs new) as [[| |]|en] eqn:HLn; try discriminate.
  - destruct (dir_at fs (Dir new)) as [[]|] eqn:Hd; [|discriminate].
    intros [= <-]. repeat split; try done.
    + apply Hnew; [done|]. intros ->. discriminate HLn.
    + intros Hne. rewrite lookup_insert_ne by done. by rewrite lookup_delete_eq.
  - destruct (dir_at fs (Dir new)) as [[]|] eqn:Hd; [|discriminate].
    intros [= <-]. repeat split; try done.
    + apply Hnew; [done|]. intros ->. discriminate HLn.
    + intros Hne. rewrite lookup_insert_ne by done. by rewrite lookup_delete_eq.
  - destruct en; try discriminate.
    destruct (dir_at fs (Dir new)) as [[]|] eqn:Hd; [|discriminate].
    intros [= <-]. repeat split; try done.
    + apply Hnew; [done|]. intros ->. discriminate HLn.
    + intros Hne. rewrite lookup_insert_ne by done. by rewrite lookup_delete_eq.
Qed.

(** What [download] has done when it returns no error. *)
Lemma download_None (e : env) (w w' : world) (url : string)
  (outPath : path) (contentType : string) :
  download e w url outPath contentType = (None, w') ->
  exists r,
    http e url = Reply r /\
    WriteFile (files w) outPath (Body r) = Ok (files w') /\
    events w' = events w ++ [Request url].
Proof.
  unfold download. destruct (is_ok _); [discriminate|].
  destruct (http e url) as [| |r]; try discriminate.
  destruct (negb _); [discriminate|]. destruct (negb _); [discriminate|].
  cbn [files emit].
  destruct (WriteFile _ _ _) as [fs|] eqn:HW; [|discriminate].
  destruct (BodyErr r); [discriminate|]. intros [= <-]. by exists r.
Qed.

(** X18.  When [cache] is not a hit, nothing is at the place of its
    temporary file, and it returns no error: the digest it returns is
    the digest of the bytes it received, and is the expected checksum
    where one was given; a regular file with these bytes is in the cache
    directory under the name of the digest; one request was sent; and
    the callback it returns is the one for the temporary file. *)
Theorem cache_stores_under_digest (sha : string -> string) (e : env)
  (w w' : world) (url checksum sum : string) (done : option path) :
  let tmpfile := JoinAbs (cachePath e) [$(Now e +:+ ".partial")] in
  cached e w checksum = false ->
  Lstat (files w) tmpfile = Err ENOENT ->
  cache sha e w url checksum = ((sum, done, None), w') ->
  exists r,
    http e url = Reply r /\
    sum = sha (Body r) /\
    (checksum <> EmptyString -> sum = checksum) /\
    Lstat (files w') (JoinAbs (cachePath e) [$sum]) = Ok (File (Body r)) /\
    files w' = <[JoinAbs (cachePath e) [$sum] := File (Body r)]>
                 (delete tmpfile (<[tmpfile := File (Body r)]> (files w))) /\
    events w' = events w ++ [Request url] /\
    done = Some tmpfile.
Proof.
  intros tmpfile Hc Habs. unfold cache. rewrite Hc. fold tmpfile.
  destruct (download e w url tmpfile "application/octet-stream")
    as [[err|] w1] eqn:Hd; [discriminate|].
  destruct (download_None _ _ _ _ _ _ Hd) as (r & Hr & HW & Hev).
  destruct (WriteFile_absent _ _ _ _ Habs HW) as (Hfs & _ & _ & _ & HL1).
  assert (ReadFile (files w1) tmpfile = Ok (Body r)) as HR
    by exact (ReadFile_WriteFile _ _ _ _ HW).
  assert (forall s, s = sha (Body r) ->
            (let newpath := JoinAbs (cachePath e) [$s] in
             match Rename (files w1) tmpfile newpath with
             | Err en => ((s, Some tmpfile, Some (ErrOs "rename" en tmpfile)), w1)
             | Ok fs => ((s, Some tmpfile, None), put w1 fs)
             end) = ((sum, done, None), w') ->
            sum = s /\ done = Some tmpfile /\
            Lstat (files w') (JoinAbs (cachePath e) [$sum]) = Ok (File (Body r)) /\
            files w' = <[JoinAbs (cachePath e) [$sum] := File (Body r)]>
                         (delete tmpfile (<[tmpfile := File (Body r)]> (files w))) /\
            events w' = events w ++ [Request url]) as Hrename.
  { intros s Hs. cbn zeta.
    destruct (Rename (files w1) tmpfile _) as [fs|] eqn:HRn; [|discriminate].
    intros [= <- <- <-]. cbn [files events put].
    destruct (Rename_file _ _ _ _ _ HL1 HRn) as (-> & HLn & _).
    rewrite <- Hfs. repeat split; done. }
  destruct (String.eqb checksum "") eqn:Hce.
  - unfold calculateChecksum. rewrite HR. intros H.
    destruct (Hrename _ eq_refl H) as (-> & -> & ? & ? & ?).
    exists r. apply String.eqb_eq in Hce. repeat split; done.
  - unfold verify, calculateChecksum. rewrite HR.
    destruct (String.eqb (sha (Body r)) checksum) eqn:Heq; cbn [negb];
      [|discriminate].
    apply String.eqb_eq in Heq. intros H.
    destruct (Hrename _ (eq_sym Heq) H) as (-> & -> & ? & ? & ?).
    exists r. repeat split; done.
Qed.

Lemma cache_stores_under_digest_witness :
  let w' := (cache digest homeless after_other "http://dl/v1.2.0/testbin" "").2 in
  exists r,
    http homeless "http://dl/v1.2.0/testbin" = Reply r /\
    "sha256:binary 1.2.0" = digest (Body r) /\
    (EmptyString <> EmptyString -> "sha256:binary 1.2.0" = EmptyString) /\
    Lstat (files w') (JoinAbs (cachePath homeless) [$"sha256:binary 1.2.0"])
      = Ok (File (Body r)) /\
    files w' = <[JoinAbs (cachePath homeless) [$"sha256:binary 1.2.0"] := File (Body r)]>
                 (delete tmp (<[tmp := File (Body r)]> (files after_other))) /\
    events w' = events after_other ++ [Request "http://dl/v1.2.0/testbin"] /\
    Some tmp = Some tmp.
Proof.
  intros w'.
  apply (cache_stores_under_digest digest homeless after_other w'
           "http://dl/v1.2.0/testbin" "" "sha256:binary 1.2.0" (Some tmp)).
  - reflexivity.
  - vm_compute; reflexivity.
  - vm_compute; reflexivity.
Defined.

(** ** The loop of [isNewer] *)

(** X19.  The loop of [isNewer] reads the entries that are no
    directories and have the prefix of the command, and no others:
    taking all the other entries out of the directory changes nothing
    in what it returns. *)
Theorem scan_reads_relevant_entries (command : string)
  (l : list (string * node)) (highest : option semver.Version) :
  scan command l highest = scan command (filter (relevant command) l) highest.
Proof.
  revert highest. induction l as [|[name n] l IH]; intros highest; [done|].
  rewrite filter_cons.
  destruct (decide (relevant command (name, n))) as [Hr|Hr].
  - apply Is_true_true in Hr. unfold relevant in Hr. cbn [fst snd] in Hr.
    apply andb_true_iff in Hr as [Hd Hp]. apply negb_true_iff in Hd.
    cbn [scan]. rewrite Hd, Hp. cbn [negb].
    destruct (semver.NewVersion _) as [v|]; [|done].
    destruct highest as [h|]; [|apply IH].
    destruct (semver.GreaterThan v h); apply IH.
  - apply Is_true_false in Hr. unfold relevant in Hr. cbn [fst snd] in Hr.
    cbn [scan]. apply andb_false_iff in Hr as [Hd|Hp].
    + apply negb_false_iff in Hd. rewrite Hd. apply IH.
    + rewrite Hp. cbn [negb]. destruct (IsDir n); apply IH.
Qed.

(** [GreaterThan] on releases is the order by major, minor and
    patch. *)
Lemma GreaterThan_release (v o : semver.Version) :
  release v -> release o ->
  semver.GreaterThan v o = true <-> newer v o.
Proof.
  unfold release, newer, semver.GreaterThan, semver.Compare, semver.compareSegment.
  intros -> ->. cbn [String.eqb andb].
  destruct (Z.ltb_spec (semver.major v) (semver.major o));
    [cbn; split; [discriminate|lia]|].
  destruct (Z.ltb_spec (semver.major o) (semver.major v));
    [cbn; split; [lia|done]|].
  cbn [Z.eqb negb].
  destruct (Z.ltb_spec (semver.minor v) (semver.minor o));
    [cbn; split; [discriminate|lia]|].
  destruct (Z.ltb_spec (semver.minor o) (semver.minor v));
    [cbn; split; [lia|done]|].
  cbn [Z.eqb negb].
  destruct (Z.ltb_spec (semver.patch v) (semver.patch o));
    [cbn; split; [discriminate|lia]|].
  destruct (Z.ltb_spec (semver.patch o) (semver.patch v));
    [cbn; split; [lia|done]|].
  cbn. split; [discriminate|lia].
Qed.

(** Over entries whose versions are releases the loop returns the
    highest: a version of an entry, or the one it started with, than
    which none of them is newer. *)
Lemma scan_highest (command : string) (l : list (string * node))
  (h0 h : semver.Version) :
  Forall (fun entry => relevant command entry = true ->
            exists v, version_of command entry = Some v /\ release v) l ->
  release h0 ->
  scan command l (Some h0) = inr (Some h) ->
  release h /\ ~ newer h0 h /\
  (h = h0 \/ exists entry, entry ∈ l /\ relevant command entry = true /\
                           version_of command entry = Some h) /\
  (forall entry v, entry ∈ l -> relevant command entry = true ->
     version_of command entry = Some v -> ~ newer v h).
Proof.
  intros Hl. revert h0. induction Hl as [|[name n] l Hx _ IH]; intros h0 Hr0.
  { cbn [scan]. intros [= <-]. repeat split; eauto.
    - unfold newer. lia.
    - intros ? ? []%elem_of_nil. }
  cbn [scan]. unfold relevant, version_of in Hx. cbn [fst snd] in Hx.
  assert (forall hh, release hh -> (~ newer h0 hh) ->
            (hh = h0 \/ version_of command (name, n) = Some hh /\
                        relevant command (name, n) = true) ->
            (relevant command (name, n) = true ->
             forall v, version_of command (name, n) = Some v -> ~ newer v hh) ->
            scan command l (Some hh) = inr (Some h) ->
            release h /\ ~ newer h0 h /\
            (h = h0 \/ exists entry, entry ∈ (name, n) :: l /\
                         relevant command entry = true /\
                         version_of command entry = Some h) /\
            (forall entry v, entry ∈ (name, n) :: l ->
               relevant command entry = true ->
               version_of command entry = Some v -> ~ newer v h)) as Hstep.
  { intros hh Hrh Hn0 Hfrom Hthis Hs.
    destruct (IH hh Hrh Hs) as (Hrel & Hnh & Hwhere & Hmax).
    split; [done|]. split; [unfold newer in *; lia|]. split.
    - destruct Hwhere as [->|(en & ? & ? & ?)].
      + destruct Hfrom as [?|[? ?]]; [by left|]. right.
        exists (name, n). split; [by apply elem_of_cons; left|done].
      + right. exists en. split; [by apply elem_of_cons; right|done].
    - intros en v [->|Hin]%elem_of_cons Hre Hve.
      + specialize (Hthis Hre v Hve). unfold newer in *. lia.
      + by eapply Hmax. }
  destruct (IsDir n) eqn:Hd.
  { apply Hstep; eauto.
    - unfold newer; lia.
    - unfold relevant. cbn [fst snd]. by rewrite Hd. }
  destruct (Str.HasPrefix name (command +:+ "-")) eqn:Hp; cbn [negb].
  2:{ apply Hstep; eauto.
      - unfold newer; lia.
      - unfold relevant. cbn [fst snd]. by rewrite Hd, Hp. }
  destruct (Hx eq_refl) as (v & Hv & Hrv). rewrite Hv.
  destruct (semver.GreaterThan v h0) eqn:Hgt.
  - apply GreaterThan_release in Hgt; [|done..].
    apply Hstep; eauto.
    + unfold newer in *. lia.
    + right. unfold relevant, version_of. cbn [fst snd]. by rewrite Hd, Hp.
    + intros _ v' Hv'. unfold version_of in Hv'. cbn [fst] in Hv'.
      rewrite Hv in Hv'. injection Hv' as <-. unfold newer. lia.
  - assert (~ newer v h0) as Hnot.
    { intros Hn. apply GreaterThan_release in Hn; [|done..]. congruence. }
    apply Hstep; eauto.
    + unfold newer; lia.
    + intros _ v' Hv'. unfold version_of in Hv'. cbn [fst] in Hv'.
      rewrite Hv in Hv'. by injection Hv' as <-.
Qed.

(** The same for the loop as [isNewer] starts it, with the nil pointer:
    the version it returns is the version of an entry. *)
Lemma scan_highest_from_nil (command : string) (l : list (string * node))
  (h : semver.Version) :
  Forall (fun entry => relevant command entry = true ->
            exists v, version_of command entry = Some v /\ release v) l ->
  scan command l None = inr (Some h) ->
  release h /\
  (exists entry, entry ∈ l /\ relevant command entry = true /\
                 version_of command entry = Some h) /\
  (forall entry v, entry ∈ l -> relevant command entry = true ->
     version_of command entry = Some v -> ~ newer v h).
Proof.
  intros Hl. induction Hl as [|[name n] l Hx Hl IH]; [done|].
  cbn [scan]. unfold relevant, version_of in Hx. cbn [fst snd] in Hx.
  assert (relevant command (name, n) = false ->
          scan command l None = inr (Some h) ->
          release h /\
          (exists entry, entry ∈ (name, n) :: l /\ relevant command entry = true /\
                         version_of command entry = Some h) /\
          (forall entry v, entry ∈ (name, n) :: l ->
             relevant command entry = true ->
             version_of command entry = Some v -> ~ newer v h)) as Hskip.
  { intros Hno Hs. destruct (IH Hs) as (Hr & (en & ? & ? & ?) & Hmax).
    split; [done|]. split.
    - exists en. split; [by apply elem_of_cons; right|done].
    - intros en' v [->|Hin]%elem_of_cons Hre Hve; [congruence|by eapply Hmax]. }
  destruct (IsDir n) eqn:Hd.
  { apply Hskip. unfold relevant. cbn [fst snd]. by rewrite Hd. }
  destruct (Str.HasPrefix name (command +:+ "-")) eqn:Hp; cbn [negb].
  2:{ apply Hskip. unfold relevant. cbn [fst snd]. by rewrite Hd, Hp. }
  destruct (Hx eq_refl) as (v & Hv & Hrv). rewrite Hv. intros Hs.
  assert (relevant command (name, n) = true) as Hrel
    by (unfold relevant; cbn [fst snd]; by rewrite Hd, Hp).
  destruct (scan_highest command l v h Hl Hrv Hs) as (Hr & Hnv & Hwhere & Hmax).
  split; [done|]. split.
  - destruct Hwhere as [->|(en & ? & ? & ?)].
    + exists (name, n). split; [by apply elem_of_cons; left|done].
    + exists en. split; [by apply elem_of_cons; right|done].
  - intros en' v' [->|Hin]%elem_of_cons Hre Hve; [|by eapply Hmax].
    unfold version_of in Hve. cbn [fst] in Hve. rewrite Hv in Hve.
    by injection Hve as <-.
Qed.

(** X20.  Where the version asked for is a release and so are the
    versions of all the entries that [isNewer] reads, and it returns no
    error: it returns true exactly when no entry has a version newer
    than the one asked for, in the order by major, minor and patch. *)
Theorem isNewer_true_iff_none_newer (e : env) (w : world)
  (namespace command versionStr : string) (version : semver.Version)
  (entries : list (string * node)) (ok : bool) :
  semver.NewVersion versionStr = Some version -> release version ->
  ReadDir (files w) (Abs (Getwd e) (Join [dotfilesPath e; $"binr"; $namespace]))
    = Ok entries ->
  Forall (fun entry => relevant command entry = true ->
            exists v, version_of command entry = Some v /\ release v) entries ->
  isNewer e w namespace command versionStr = Return (ok, None) ->
  ok = true <->
  (forall entry v, entry ∈ entries -> relevant command entry = true ->
     version_of command entry = Some v -> ~ newer v version).
Proof.
  intros Hv Hrv HR Hall. unfold isNewer. rewrite Hv, HR.
  destruct (scan command entries None) as [|[h|]] eqn:Hs; try discriminate.
  intros [= <-].
  destruct (scan_highest_from_nil _ _ _ Hall Hs) as (Hrh & (en & Hin & Hre & Hve) & Hmax).
  pose proof (GreaterThan_release h version Hrh Hrv) as Hgt.
  rewrite negb_true_iff. split.
  - intros Hno en' v' Hin' Hre' Hve' Hnew.
    specialize (Hmax en' v' Hin' Hre' Hve').
    destruct (semver.GreaterThan h version); [done|].
    assert (~ newer h version) as Hnh by (intros Hn; apply Hgt in Hn; done).
    unfold newer in *. lia.
  - intros Hnone. specialize (Hnone en h Hin Hre Hve).
    destruct (semver.GreaterThan h version); [|done].
    exfalso. apply Hnone. by apply Hgt.
Qed.

Lemma isNewer_true_iff_none_newer_witness :
  true = true <->
  (forall x v,
     x ∈ [("testbin", Link (entry "sha256:binary 1.0.0"));
          ("testbin-v1.0.0", Link (entry "sha256:binary 1.0.0"))] ->
     relevant "testbin" x = true ->
     version_of "testbin" x = Some v ->
     ~ newer v (semver.mkVersion 1 2 0 "" "")).
Proof.
  apply (isNewer_true_iff_none_newer homeless after_v100 "myapp" "testbin" "v1.2.0").
  - vm_compute; reflexivity.
  - reflexivity.
  - vm_compute; reflexivity.
  - repeat constructor.
    + intros H; vm_compute in H; discriminate.
    + intros _. eexists. split; [vm_compute; reflexivity|reflexivity].
  - vm_compute; reflexivity.
Defined.

(** ** A call of [Get] that installs *)

Lemma tree_insert (fs : FS) (p : path) (n : node) :
  tree fs -> dir_at fs (Dir p) = Ok tt -> fs !! p <> Some Directory ->
  tree (<[p := n]> fs).
Proof.
  intros Ht Hd Hnd q m Hq.
  destruct (decide (q = p)) as [->|Hne].
  - unfold dir_at in *. destruct (Dir p) as [|x d] eqn:HD; [done|].
    rewrite lookup_insert_ne; [done|].
    rewrite <- HD. intros Heq. symmetry in Heq. revert Heq. apply Dir_neq.
    intros ->. discriminate HD.
  - rewrite lookup_insert_ne in Hq by done. specialize (Ht q m Hq).
    unfold dir_at in *. destruct (Dir q) as [|x d] eqn:HD; [done|].
    destruct (decide (p = x :: d)) as [->|Hne'].
    + exfalso. apply Hnd. by destruct (fs !! (x :: d)) as [[]|].
    + by rewrite lookup_insert_ne.
Qed.

Lemma create_tree (fs fs' : FS) (p : path) (n : node) :
  create fs p n = Ok fs' -> tree fs -> tree fs'.
Proof.
  intros (-> & Hfresh & _ & Hd)%create_Ok Ht.
  apply tree_insert; [done..|]. by rewrite Hfresh.
Qed.

Lemma dir_at_insert_inv (fs : FS) (q d : path) (x : node) :
  d <> q -> dir_at (<[q := x]> fs) d = Ok tt -> dir_at fs d = Ok tt.
Proof.
  intros Hne. unfold dir_at. destruct d; [done|].
  by rewrite lookup_insert_ne.
Qed.

(** [os.MkdirAll] keeps a tree a tree, and puts nothing at a path
    longer than its own. *)
Lemma MkdirAll_more (fs fs' : FS) (p : path) :
  MkdirAll fs p = Ok fs' ->
  (tree fs -> tree fs') /\
  (forall q, length p < length q -> fs !! q = None -> fs' !! q = None).
Proof.
  unfold MkdirAll.
  set (step := fun (acc : result FS) (q : path) =>
                 match acc with
                 | Ok fs' =>
                     match Stat fs' q with
                     | Ok Directory => Ok fs'
                     | Ok _ => Err ENOTDIR
                     | Err ENOENT => Mkdir fs' q
                     | Err e => Err e
                     end
                 | Err e => Err e
                 end).
  assert (forall l en, foldl step (Err en) l = Err en) as HErr.
  { intros l en. induction l; [done|]. cbn [foldl]. exact IHl. }
  assert (forall p base fs0,
            foldl step (Ok fs0) (prefixes base p) = Ok fs' ->
            (tree fs0 -> tree fs') /\
            (forall q, length base + length p < length q ->
               fs0 !! q = None -> fs' !! q = None)) as Hgen.
  { clear p. intros p. induction p as [|c p IH]; intros base fs0.
    - cbn [prefixes foldl]. by intros [= <-].
    - cbn [prefixes foldl]. unfold step at 2.
      destruct (Stat fs0 (base ++ [c])) as [[| |]|en] eqn:Hq;
        try (by rewrite HErr).
      + intros H. destruct (IH _ _ H) as [Ht Hn]. split; [done|].
        intros q Hlen. apply Hn. rewrite length_app. cbn [length] in *. lia.
      + destruct en; try (by rewrite HErr).
        destruct (Mkdir fs0 (base ++ [c])) as [fs1|] eqn:HM;
          [|by rewrite HErr].
        intros H. destruct (IH _ _ H) as [Ht Hn]. split.
        * intros Ht0. apply Ht. by apply (create_tree _ _ _ _ HM).
        * intros q Hlen Hq0. apply Hn.
          { rewrite length_app. cbn [length] in *. lia. }
          apply create_Ok in HM as (-> & _).
          rewrite lookup_insert_ne; [done|]. intros <-.
          rewrite length_app in Hlen. cbn [length] in Hlen. lia. }
  intros H. destruct (Hgen p [] fs H) as [Ht Hn]. split; [done|].
  intros q Hlen. apply Hn. cbn [length]. lia.
Qed.

Lemma WriteFile_fresh (fs fs' : FS) (p : path) (c : string) :
  fs !! p = None -> WriteFile fs p c = Ok fs' -> Lstat fs p = Err ENOENT.
Proof.
  intros Hnone. unfold WriteFile, max_links. cbn [write_at].
  destruct (Lstat fs p) as [n|en] eqn:HL.
  - destruct (Lstat_Ok _ _ _ HL) as [->|Hsome]; [|congruence].
    cbn in HL. injection HL as <-. discriminate.
  - by destruct en.
Qed.

Lemma Rename_not_onto_directory (fs fs' : FS) (old new : path) :
  Rename fs old new = Ok fs' -> Lstat fs new <> Ok Directory.
Proof.
  unfold Rename. destruct (Lstat fs old) as [[| |]|]; try discriminate;
    by destruct (Lstat fs new) as [[| |]|].
Qed.

(** The cleanup callback where nothing is at the temporary file. *)
Lemma run_done_absent (w : world) (tmpfile : path) :
  files w !! tmpfile = None -> tmpfile <> [] ->
  files (run_done w tmpfile) = files w.
Proof.
  intros Hnone Hne. rewrite run_done_files.
  assert (exists en, Lstat (files w) tmpfile = Err en) as [en HL].
  { destruct (Lstat (files w) tmpfile) as [n|en] eqn:HL; [|by exists en].
    destruct (Lstat_Ok _ _ _ HL); congruence. }
  rewrite (Stat_Lstat_Err _ _ _ HL).
  destruct (IsNotExist (Err en)); [done|].
  unfold Remove. by rewrite HL.
Qed.

Lemma run_done_events (w : world) (tmpfile : path) :
  events (run_done w tmpfile) = events w ++ [Cleanup tmpfile].
Proof.
  unfold run_done. destruct (IsNotExist _); [done|].
  by destruct (Remove _ _).
Qed.

Lemma JoinAbs_plain (base : path) (name : string) :
  plain name -> JoinAbs base [$name] = base ++ [name].
Proof.
  intros Hp. unfold JoinAbs.
  rewrite filter_cons, decide_True by (by rewrite plain_nonempty_elem).
  rewrite filter_nil. cbn [flat_map comps of_string]. rewrite app_nil_r.
  rewrite (plain_split _ Hp). destruct Hp as (_ & ? & ? & ?).
  by apply clean_go_push.
Qed.

(** What [setup] leaves when it returns no error. *)
Lemma setup_None (e : env) (w w1 : world) :
  setup e w = (None, w1) ->
  is_ok (Stat (files w1) (cachePath e)) = true /\
  events w1 = events w /\
  (tree (files w) -> tree (files w1)) /\
  (forall q, length (cachePath e) < length q ->
     files w !! q = None -> files w1 !! q = None).
Proof.
  unfold setup.
  destruct (Stat (files w) (cachePath e)) as [n|en] eqn:HS.
  - cbn. intros [= <-]. by rewrite HS.
  - destruct (IsNotExist (Err en)); [|discriminate].
    destruct (MkdirAll (files w) (cachePath e)) as [fs|] eqn:HM; [|discriminate].
    intros [= <-]. cbn [files events put].
    destruct (MkdirAll_Ok _ _ _ HM) as [Hd _].
    destruct (MkdirAll_more _ _ _ HM) as [Ht Hn].
    by rewrite Hd.
Qed.

Lemma setup_stable (e : env) (w : world) :
  is_ok (Stat (files w) (cachePath e)) = true -> setup e w = (None, w).
Proof. unfold setup. by destruct (Stat (files w) (cachePath e)). Qed.

Lemma getChecksum_None (e : env) (w w' : world) (url sum : string) :
  getChecksum e w url = ((sum, None), w') ->
  files w' = files w /\
  events w' = events w ++ (if String.eqb url "" then [] else [Request url]).
Proof.
  unfold getChecksum. destruct (String.eqb url "").
  { intros [= _ <-]. by rewrite app_nil_r. }
  destruct (http e url) as [| |r]; try discriminate.
  destruct (negb _); [discriminate|]. destruct (BodyErr r); [discriminate|].
  by intros [= _ <-].
Qed.

(** The steps of a call of [cache] that returns no error and a
    callback. *)
Lemma cache_None (sha : string -> string) (e : env) (w w' : world)
  (url checksum sum : string) (t : path) :
  cache sha e w url checksum = ((sum, Some t, None), w') ->
  t = JoinAbs (cachePath e) [$(Now e +:+ ".partial")] /\
  exists r fs1,
    http e url = Reply r /\
    WriteFile (files w) t (Body r) = Ok fs1 /\
    sum = sha (Body r) /\
    Rename fs1 t (JoinAbs (cachePath e) [$sum]) = Ok (files w') /\
    events w' = events w ++ [Request url].
Proof.
  unfold cache. destruct (cached e w checksum); [discriminate|].
  set (tmpfile := JoinAbs (cachePath e) [$(Now e +:+ ".partial")]).
  destruct (download e w url tmpfile "application/octet-stream")
    as [[err|] w1] eqn:Hd; [discriminate|].
  destruct (download_None _ _ _ _ _ _ Hd) as (r & Hr & HW & Hev).
  assert (ReadFile (files w1) tmpfile = Ok (Body r)) as HR
    by exact (ReadFile_WriteFile _ _ _ _ HW).
  assert (forall s, s = sha (Body r) ->
            (let newpath := JoinAbs (cachePath e) [$s] in
             match Rename (files w1) tmpfile newpath with
             | Err en => ((s, Some tmpfile, Some (ErrOs "rename" en tmpfile)), w1)
             | Ok fs => ((s, Some tmpfile, None), put w1 fs)
             end) = ((sum, Some t, None), w') ->
            t = tmpfile /\
            exists r fs1,
              http e url = Reply r /\
              WriteFile (files w) t (Body r) = Ok fs1 /\
              sum = sha (Body r) /\
              Rename fs1 t (JoinAbs (cachePath e) [$sum]) = Ok (files w') /\
              events w' = events w ++ [Request url]) as Hrename.
  { intros s Hs. cbn zeta.
    destruct (Rename (files w1) tmpfile _) as [fs|] eqn:HRn; [|discriminate].
    intros [= <- <- <-]. split; [done|]. exists r, (files w1).
    cbn [files events put]. by rewrite HRn. }
  destruct (String.eqb checksum "") eqn:Hce.
  - unfold calculateChecksum. rewrite HR. by apply Hrename.
  - unfold verify, calculateChecksum. rewrite HR.
    destruct (String.eqb (sha (Body r)) checksum) eqn:Heq; cbn [negb];
      [|discriminate].
    apply String.eqb_eq in Heq. by apply Hrename.
Qed.

(** The way of a call of [Get] that returns a path and no error: the
    path was there after [setup], or every step to the end has returned
    no error. *)
Lemma Get_Return_None (sha : string -> string) (e : env) (w w' : world)
  (namespace command version : string) (source : Source)
  (options : list option_) (p : path) :
  Get sha e w namespace command version (Some source) options
    = (Return (Some p, None), w') ->
  namespace <> EmptyString /\ command <> EmptyString /\
  version <> EmptyString /\ is_Some (semver.NewVersion version) /\
  update (newConfig options) = false /\
  exists w1,
    setup e w = (None, w1) /\
    Path e namespace command version = OK p /\
    (got w1 p = true /\ w' = w1 \/
     got w1 p = false /\
     exists sourceURL sumURL sum w2 s tmpfile w3 w4,
       source version (GOOS e) (GOARCH e) = (sourceURL, sumURL, None) /\
       getChecksum e w1 sumURL = ((sum, None), w2) /\
       cache sha e w2 sourceURL sum = ((s, Some tmpfile, None), w3) /\
       link e w3 namespace command version s = (Return None, w4) /\
       w' = run_done w4 tmpfile).
Proof.
  unfold Get.
  destruct (String.eqb namespace "") eqn:Hn; [discriminate|].
  destruct (String.eqb command "") eqn:Hc; [discriminate|].
  destruct (String.eqb version "") eqn:Hv; [discriminate|].
  apply String.eqb_neq in Hn, Hc, Hv.
  destruct (bool_decide (is_Some (semver.NewVersion version))) eqn:Hsv;
    cbn [negb]; [|discriminate].
  apply bool_decide_eq_true in Hsv.
  destruct (update (newConfig options)) eqn:Hu; [discriminate|].
  destruct (setup e w) as [[err|] w1] eqn:Hs; [discriminate|].
  destruct (Path e namespace command version) as [pv|] eqn:HP; [|discriminate].
  intros H. repeat (split; [done|]). exists w1. split; [done|].
  destruct (got w1 pv) eqn:Hg.
  { injection H as <- <-. split; [done|]. by left. }
  destruct (source version (GOOS e) (GOARCH e)) as [[sourceURL sumURL] [err|]]
    eqn:Hsrc; [discriminate|].
  destruct (getChecksum e w1 sumURL) as [[sum [err|]] w2] eqn:Hgc;
    [discriminate|].
  destruct (cache sha e w2 sourceURL sum) as [[[s cleanup] [err|]] w3] eqn:Hca;
    [discriminate|].
  destruct (link e w3 namespace command version s) as [r w4] eqn:HL.
  destruct cleanup as [tmpfile|]; cbn [deferred] in H; [|discriminate].
  destruct r as [[err|]|]; try discriminate.
  injection H as <- <-. split; [done|]. right. split; [done|].
  exists sourceURL, sumURL, sum, w2, s, tmpfile, w3, w4. done.
Qed.

Lemma Lstat_intro (fs : FS) (p : path) (n : node) :
  p <> [] -> dir_at fs (Dir p) = Ok tt -> fs !! p = Some n -> Lstat fs p = Ok n.
Proof. intros Hne Hd Hl. unfold Lstat. destruct p; [done|]. by rewrite Hd, Hl. Qed.

Lemma Lstat_Ok_dir (fs : FS) (p : path) (n : node) :
  Lstat fs p = Ok n -> dir_at fs (Dir p) = Ok tt.
Proof.
  unfold Lstat. destruct p; [done|].
  by destruct (dir_at fs (Dir (s :: p))) as [[]|].
Qed.

Lemma dir_at_lookup (fs : FS) (d : path) :
  dir_at fs d = Ok tt -> d <> [] -> fs !! d = Some Directory.
Proof.
  unfold dir_at. destruct d; [done|].
  by destruct (fs !! (s :: d)) as [[]|].
Qed.

(** A call of [Get] that went all the way to its end, from the disk
    [setup] left: what is there after the cleanup. *)
Lemma Get_fresh_state (sha : string -> string) (e : env) (w1 w2 w3 w4 : world)
  (namespace command version sourceURL sum s : string) (tmpfile p : path) :
  tree (files w1) -> plain namespace -> plain command ->
  plain (Now e +:+ ".partial") -> digests_name_entries sha e ->
  files w1 !! JoinAbs (cachePath e) [$(Now e +:+ ".partial")] = None ->
  Path e namespace command version = OK p ->
  files w2 = files w1 ->
  cache sha e w2 sourceURL sum = ((s, Some tmpfile, None), w3) ->
  link e w3 namespace command version s = (Return None, w4) ->
  tmpfile = JoinAbs (cachePath e) [$(Now e +:+ ".partial")] /\
  exists r pu,
    http e sourceURL = Reply r /\
    Path e namespace command EmptyString = OK pu /\
    Stat (files (run_done w4 tmpfile)) p = Ok (File (Body r)) /\
    Stat (files (run_done w4 tmpfile)) pu = Ok (File (Body r)) /\
    Stat (files (run_done w4 tmpfile)) (cachePath e) = Ok Directory /\
    files (run_done w4 tmpfile) !! tmpfile = None /\
    events (run_done w4 tmpfile)
      = events w2 ++ [Request sourceURL; Cleanup tmpfile].
Proof.
  intros Ht Hns Hcmd Hnow Hdig Hnone HP Hf Hca HL.
  destruct (cache_None _ _ _ _ _ _ _ _ Hca)
    as (Htmp & r & fs1 & Hr & HW & Hs & HRn & Hev3).
  split; [done|]. subst s.
  destruct (Hdig _ _ Hr) as [Hps Hneq].
  rewrite (JoinAbs_plain _ _ Hnow) in Htmp, Hnone.
  rewrite (JoinAbs_plain _ _ Hps) in HRn.
  set (new := cachePath e ++ [sha (Body r)]) in *.
  assert (Dir tmpfile = cachePath e) as HDt
    by (subst tmpfile; apply removelast_last).
  assert (Dir new = cachePath e) as HDn by apply removelast_last.
  assert (new <> tmpfile) as Hnt.
  { subst tmpfile. unfold new. intros Heq. apply app_inv_head in Heq.
    by injection Heq. }
  assert (tmpfile <> []) as Htne by (subst tmpfile; by destruct (cachePath e)).
  assert (new <> []) as Hnne by (unfold new; by destruct (cachePath e)).
  rewrite <- Htmp in Hnone. rewrite Hf in HW.
  pose proof (WriteFile_fresh _ _ _ _ Hnone HW) as HLt.
  destruct (WriteFile_absent _ _ _ _ HLt HW) as (-> & _ & _ & Hdc & HL1).
  rewrite HDt in Hdc.
  destruct (Rename_file _ _ _ _ _ HL1 HRn) as (Hfs3 & HLn & _).
  pose proof (Rename_not_onto_directory _ _ _ _ HRn) as Hnd.
  rewrite delete_insert_id in Hfs3 by done.
  assert (files w1 !! new <> Some Directory) as Hnew1.
  { intros Hd. apply Hnd. apply Lstat_insert_fresh; [done|].
    apply Lstat_intro; [done| |done]. by rewrite HDn. }
  assert (tree (files w3)) as Ht3.
  { rewrite Hfs3. apply tree_insert; [done| |done]. by rewrite HDn. }
  assert (files w3 !! tmpfile = None) as Hnone3
    by (by rewrite Hfs3, lookup_insert_ne).
  assert (cachePath e <> []) as Hcne.
  { destruct (namespace_beside_cache e namespace Hns) as (base & _ & ->).
    by destruct base. }
  assert (files w3 !! cachePath e = Some Directory) as Hc3.
  { apply dir_at_lookup; [|done]. rewrite <- HDn. by eapply Lstat_Ok_dir. }
  assert (Lstat (files w3) (cachePath e) = Ok Directory) as HLc3.
  { apply Lstat_intro; [done| |done]. by eapply Ht3. }
  destruct (link_Return_None _ _ _ _ _ _ _ Ht3 (proj1 Hcmd) HL)
    as (pv & pu & fs4 & fs5 & HP' & HPu & _ & HM & HS & HSu & Hev4).
  rewrite HP in HP'. injection HP' as <-.
  exists r, pu. split; [done|]. split; [done|].
  pose proof (link_dest_beside_cache e _ _ _ _ _ Hns Hcmd Hps HP) as Hdv.
  pose proof (link_dest_beside_cache e _ _ _ _ _ Hns Hcmd Hps HPu) as Hdu.
  rewrite (JoinAbs_plain _ _ Hps) in Hdv, Hdu. fold new in Hdv, Hdu.
  (* the paths of the links are not the temporary file *)
  pose proof (Path_shape e _ _ _ _ Hcmd HP) as Hp.
  pose proof (Path_shape e _ _ _ _ Hcmd HPu) as Hpu.
  set (dir := Abs (Getwd e) (Join [dotfilesPath e; $"binr"; $namespace])) in *.
  assert (Dir p = dir) as HDp by (rewrite Hp; apply removelast_last).
  rewrite HDp in HM.
  pose proof (create_Ok _ _ _ _ HM) as (Hfs4 & Hfresh4 & _ & _).
  pose proof (create_Ok _ _ _ _ HS) as (Hfs5 & _).
  pose proof (create_Ok _ _ _ _ HSu) as (Hfs6 & _).
  assert (dir <> cachePath e) as Hdc3 by congruence.
  assert (tmpfile <> dir) as Hn1.
  { intros Heq. apply (f_equal length) in Heq. revert Heq. subst tmpfile.
    destruct (namespace_beside_cache e namespace Hns) as (base & Hb1 & Hb2).
    fold dir in Hb1. rewrite Hb1, Hb2, !length_app. cbn [length]. lia. }
  assert (forall x, tmpfile <> dir ++ [x]) as Hn2.
  { intros x Heq. subst tmpfile. by apply app_inj_tail in Heq as [? _]. }
  assert (files w4 !! tmpfile = None) as Hnone4.
  { rewrite Hfs6, Hfs5, Hfs4, Hpu, Hp.
    rewrite !lookup_insert_ne; by eauto. }
  rewrite (run_done_absent _ _ Hnone4 Htne), run_done_events, Hev4, Hev3.
  assert (Lstat (files w4) new = Ok (File (Body r))) as He.
  { eapply create_keeps; [exact HSu|]. eapply create_keeps; [exact HS|].
    eapply create_keeps; [exact HM|]. exact HLn. }
  repeat split.
  - eapply Stat_through_link; [|exact Hdv|exact He].
    eapply create_keeps; [exact HSu|]. by eapply create_Lstat.
  - eapply Stat_through_link; [|exact Hdu|exact He].
    by eapply create_Lstat.
  - apply Stat_Lstat_Directory.
    eapply create_keeps; [exact HSu|]. eapply create_keeps; [exact HS|].
    eapply create_keeps; [exact HM|]. exact HLc3.
  - done.
  - by rewrite <- app_assoc.
Qed.

(** A call of [Get] for what is already there. *)
Lemma Get_found (sha : string -> string) (e : env) (w : world)
  (namespace command version : string) (source : Source)
  (options : list option_) (p : path) :
  namespace <> EmptyString -> command <> EmptyString ->
  version <> EmptyString -> is_Some (semver.NewVersion version) ->
  update (newConfig options) = false ->
  is_ok (Stat (files w) (cachePath e)) = true ->
  Path e namespace command version = OK p ->
  got w p = true ->
  Get sha e w namespace command version (Some source) options
    = (Return (Some p, None), w).
Proof.
  intros Hn Hc Hv Hsv Hu Hst HP Hg. unfold Get.
  apply String.eqb_neq in Hn as ->. apply String.eqb_neq in Hc as ->.
  apply String.eqb_neq in Hv as ->.
  rewrite bool_decide_eq_true_2 by done. cbn [negb].
  by rewrite Hu, (setup_stable _ _ Hst), HP, Hg.
Qed.

(** Nothing at a path of a link means [got] is false after [setup]. *)
Lemma got_after_setup (e : env) (w w1 : world)
  (namespace command version : string) (p : path) :
  plain namespace -> plain command ->
  setup e w = (None, w1) ->
  Path e namespace command version = OK p ->
  files w !! p = None -> got w1 p = false.
Proof.
  intros Hns Hcmd Hs HP Hnone.
  destruct (setup_None _ _ _ Hs) as (_ & _ & _ & Hkeep).
  pose proof (Path_shape e _ _ _ _ Hcmd HP) as Hp.
  destruct (namespace_beside_cache e namespace Hns) as (base & Hb1 & Hb2).
  rewrite Hb1 in Hp.
  assert (files w1 !! p = None) as Hnone1.
  { apply Hkeep; [|done]. rewrite Hb2, Hp, !length_app. cbn [length]. lia. }
  unfold got.
  destruct (Lstat (files w1) p) as [n|en] eqn:HL.
  - destruct (Lstat_Ok _ _ _ HL) as [->|?]; [|congruence].
    by destruct base.
  - by rewrite (Stat_Lstat_Err _ _ _ HL).
Qed.

(** X21.  On a disk that is a tree, with nothing at the versioned path
    and nothing at the place of the temporary file, for a plain
    namespace and command, a plain name of the temporary file, and
    digests that are plain names other than that of the temporary
    file: when [Get] returns a path and no error, the
    path is the versioned path, the versioned and the unversioned path
    both lead to a regular file with the bytes the server sent for the
    URL of the source, the temporary file is gone, and the events are
    the request for the checksum where the source names one, the request
    for the binary, and the cleanup, in this order. *)
Theorem Get_installs_the_download (sha : string -> string) (e : env)
  (w w' : world) (namespace command version : string) (source : Source)
  (options : list option_) (p : path) (sourceURL sumURL : string) :
  let tmpfile := JoinAbs (cachePath e) [$(Now e +:+ ".partial")] in
  tree (files w) -> plain namespace -> plain command ->
  plain (Now e +:+ ".partial") -> digests_name_entries sha e ->
  files w !! tmpfile = None -> files w !! p = None ->
  source version (GOOS e) (GOARCH e) = (sourceURL, sumURL, None) ->
  Get sha e w namespace command version (Some source) options
    = (Return (Some p, None), w') ->
  exists r pu,
    http e sourceURL = Reply r /\
    Path e namespace command version = OK p /\
    Path e namespace command EmptyString = OK pu /\
    Stat (files w') p = Ok (File (Body r)) /\
    Stat (files w') pu = Ok (File (Body r)) /\
    files w' !! tmpfile = None /\
    events w' = events w
                  ++ (if String.eqb sumURL "" then [] else [Request sumURL])
                  ++ [Request sourceURL; Cleanup tmpfile].
Proof.
  intros tmpfile Ht Hns Hcmd Hnow Hdig Hnone Hp Hsrc HG.
  destruct (Get_Return_None _ _ _ _ _ _ _ _ _ _ HG)
    as (_ & _ & _ & _ & _ & w1 & Hs & HP & Hcase).
  pose proof (got_after_setup _ _ _ _ _ _ _ Hns Hcmd Hs HP Hp) as Hg.
  destruct Hcase as [[Hg' _]|(_ & sourceURL' & sumURL' & sum & w2 & s & t
                               & w3 & w4 & Hsrc' & Hgc & Hca & HL & ->)];
    [congruence|].
  rewrite Hsrc in Hsrc'. injection Hsrc' as <- <-.
  destruct (setup_None _ _ _ Hs) as (_ & Hev1 & Ht1 & Hkeep).
  destruct (getChecksum_None _ _ _ _ _ Hgc) as [Hf2 Hev2].
  assert (files w1 !! tmpfile = None) as Hnone1.
  { apply Hkeep; [|done]. unfold tmpfile. rewrite (JoinAbs_plain _ _ Hnow).
    rewrite length_app. cbn [length]. lia. }
  destruct (Get_fresh_state sha e w1 w2 w3 w4 _ _ _ _ _ _ _ _
              (Ht1 Ht) Hns Hcmd Hnow Hdig Hnone1 HP Hf2 Hca HL)
    as (-> & r & pu & Hr & HPu & HSp & HSu & _ & Hgone & Hev).
  exists r, pu. fold tmpfile in HSp, HSu, Hgone, Hev |- *.
  repeat (split; [done|]).
  by rewrite Hev, Hev2, Hev1, <- app_assoc.
Qed.

(** The disk of the concrete setting is a tree. *)
Lemma fresh_tree : tree (files fresh).
Proof.
  intros p n Hp. apply elem_of_map_to_list in Hp. vm_compute in Hp.
  repeat (apply elem_of_cons in Hp as [Hp|Hp];
          [injection Hp as -> ->; vm_compute; reflexivity|]).
  by apply elem_of_nil in Hp.
Qed.

(** The digests of what the server of the concrete setting sends. *)
Lemma server_digests : digests_name_entries digest homeless.
Proof.
  intros url r. cbn [http homeless]. unfold server, octet, text.
  repeat (destruct (String.eqb url _);
          [intros [= <-]; repeat split; done|]).
  discriminate.
Qed.

Lemma Get_installs_the_download_witness :
  exists r pu,
    http homeless "http://dl/v1.0.0/testbin" = Reply r /\
    Path homeless "myapp" "testbin" "v1.0.0" = OK (myapp ++ ["testbin-v1.0.0"]) /\
    Path homeless "myapp" "testbin" EmptyString = OK pu /\
    Stat (files after_v100) (myapp ++ ["testbin-v1.0.0"]) = Ok (File (Body r)) /\
    Stat (files after_v100) pu = Ok (File (Body r)) /\
    files after_v100 !! JoinAbs (cachePath homeless) [$(Now homeless +:+ ".partial")]
      = None /\
    events after_v100
      = events fresh
          ++ (if String.eqb "" "" then [] else [Request ""])
          ++ [Request "http://dl/v1.0.0/testbin";
              Cleanup (JoinAbs (cachePath homeless)
                         [$(Now homeless +:+ ".partial")])].
Proof.
  apply (Get_installs_the_download digest homeless fresh after_v100
           "myapp" "testbin" "v1.0.0" plain_source []
           (myapp ++ ["testbin-v1.0.0"]) "http://dl/v1.0.0/testbin" "").
  - exact fresh_tree.
  - repeat split; done.
  - repeat split; done.
  - repeat split; done.
  - exact server_digests.
  - vm_compute; reflexivity.
  - vm_compute; reflexivity.
  - reflexivity.
  - vm_compute; reflexivity.
Defined.

(** X22.  Under the same conditions on the disk, the names and the
    digests, after a call of [Get] that has returned a path and no
    error, the path leads to something on the disk, and a second call
    with the same arguments returns the same path and no error, sends
    no request and leaves the disk as it is. *)
Theorem Get_again (sha : string -> string) (e : env)
  (w w' : world) (namespace command version : string) (source : Source)
  (options : list option_) (p : path) :
  tree (files w) -> plain namespace -> plain command ->
  plain (Now e +:+ ".partial") -> digests_name_entries sha e ->
  files w !! JoinAbs (cachePath e) [$(Now e +:+ ".partial")] = None ->
  Get sha e w namespace command version (Some source) options
    = (Return (Some p, None), w') ->
  got w' p = true /\
  Get sha e w' namespace command version (Some source) options
    = (Return (Some p, None), w').
Proof.
  intros Ht Hns Hcmd Hnow Hdig Hnone HG.
  destruct (Get_Return_None _ _ _ _ _ _ _ _ _ _ HG)
    as (Hn & Hc & Hv & Hsv & Hu & w1 & Hs & HP & Hcase).
  destruct (setup_None _ _ _ Hs) as (Hst1 & Hev1 & Ht1 & Hkeep).
  assert (is_ok (Stat (files w') (cachePath e)) = true /\ got w' p = true)
    as [Hst Hg].
  { destruct Hcase as [[Hg ->]|(_ & sourceURL & sumURL & sum & w2 & s & t
                                 & w3 & w4 & Hsrc & Hgc & Hca & HL & ->)];
      [done|].
    destruct (getChecksum_None _ _ _ _ _ Hgc) as [Hf2 _].
    assert (files w1 !! JoinAbs (cachePath e) [$(Now e +:+ ".partial")] = None)
      as Hnone1.
    { apply Hkeep; [|done]. rewrite (JoinAbs_plain _ _ Hnow).
      rewrite length_app. cbn [length]. lia. }
    destruct (Get_fresh_state sha e w1 w2 w3 w4 _ _ _ _ _ _ _ _
                (Ht1 Ht) Hns Hcmd Hnow Hdig Hnone1 HP Hf2 Hca HL)
      as (_ & r & pu & _ & _ & HSp & _ & HSc & _).
    unfold got. by rewrite HSp, HSc. }
  split; [done|]. by apply Get_found.
Qed.

Lemma Get_again_witness :
  got after_v100 (myapp ++ ["testbin-v1.0.0"]) = true /\
  Get digest homeless after_v100 "myapp" "testbin" "v1.0.0" (Some plain_source) []
    = (Return (Some (myapp ++ ["testbin-v1.0.0"]), None), after_v100).
Proof.
  apply (Get_again digest homeless fresh after_v100
           "myapp" "testbin" "v1.0.0" plain_source []
           (myapp ++ ["testbin-v1.0.0"])).
  - exact fresh_tree.
  - repeat split; done.
  - repeat split; done.
  - repeat split; done.
  - exact server_digests.
  - vm_compute; reflexivity.
  - vm_compute; reflexivity.
Defined.
